(** * grammar_ru: analyzer / algorithm base classes and the analyzation pipeline

    A shallow embedding of
      - grammar_ru/common/nlp_analyzer.py            (NlpAnalyzer)
      - grammar_ru/analyzers/pymorph/pymorph_analyzer.py (PyMorphAnalyzer)
      - grammar_ru/common/architecture/nlp_algorithm.py  (NlpAlgorithm)
      - grammar_ru/common/nlp_analyzation_pipeline.py    (NlpAnalyzationPipeline)
    over a small model of the pandas operations these classes call.

    Python passes tables by reference and [NlpAlgorithm] mutates them in
    place, so tables live in a store and every method is a computation over
    that store which either returns a value or raises. *)

From stdpp Require Import gmap strings list fin_maps.

Open Scope string_scope.
Open Scope list_scope.

(** ** Cells, tables and the store *)

(** A cell of a table.  [VNull] is the missing value (NaN) a left join fills
    in.  [VFloat z] is the float that the integer [z] converts to, which is
    what pandas makes of an integer cell when it turns an integer column into
    a float column; other floats are outside the model. *)
Inductive value : Type :=
  | VNull
  | VBool (b : bool)
  | VInt (z : Z)
  | VFloat (z : Z)
  | VStr (s : string).

#[global] Instance value_eq_dec : EqDecision value.
Proof. solve_decision. Defined.

#[global] Instance value_inhabited : Inhabited value := populate VNull.

#[global] Instance value_countable : Countable value :=
  inj_countable'
    (λ v, match v with
          | VNull => inl ()
          | VBool b => inr (inl b)
          | VInt z => inr (inr (inl z))
          | VFloat z => inr (inr (inr (inl z)))
          | VStr s => inr (inr (inr (inr s)))
          end)
    (λ x, match x with
          | inl _ => VNull
          | inr (inl b) => VBool b
          | inr (inr (inl z)) => VInt z
          | inr (inr (inr (inl z))) => VFloat z
          | inr (inr (inr (inr s))) => VStr s
          end)
    (λ v, match v with
          | VNull | VBool _ | VInt _ | VFloat _ | VStr _ => eq_refl
          end).

(** [float(z)] as an integer: the nearest number with a 53-bit mantissa,
    ties to the even one. *)
Definition round53 (z : Z) : Z :=
  let m := Z.abs z in
  if (m <? 2 ^ 53)%Z then z
  else
    let e := (Z.log2 m - 52)%Z in
    let q := (m / 2 ^ e)%Z in
    let r := (m mod 2 ^ e)%Z in
    let half := (2 ^ (e - 1))%Z in
    let q' := if (half <? r)%Z || ((r =? half)%Z && Z.odd q) then (q + 1)%Z else q in
    (Z.sgn z * (q' * 2 ^ e))%Z.

(** The number a cell is, if it is one: [True] is 1 and [False] is 0. *)
Definition number (v : value) : option Z :=
  match v with
  | VBool b => Some (Z.b2z b)
  | VInt z => Some z
  | VFloat z => Some (round53 z)
  | VNull | VStr _ => None
  end.

(** Equality of cells as pandas' hash tables have it: Python's [==], which
    compares numbers by value across [bool], [int] and [float], with a
    missing value equal to a missing value. *)
Definition py_eq (a b : value) : bool :=
  match number a, number b with
  | Some x, Some y => (x =? y)%Z
  | None, None => bool_decide (a = b)
  | _, _ => false
  end.

(** A [pd.DataFrame]: an index with [nlevels] levels (one tuple of level
    values per row) and the columns in their order, each holding one cell per
    row. *)
Record DataFrame : Type := mkDataFrame {
  nlevels : nat;
  index : list (list value);
  columns : list (string * list value)
}.

#[global] Instance DataFrame_inhabited : Inhabited DataFrame :=
  populate (mkDataFrame 1 [] []).

(** [len(df)] *)
Definition row_count (df : DataFrame) : nat := length (index df).

(** [df.columns] *)
Definition column_names (df : DataFrame) : list string := (columns df).*1.

(** [df[c]] as a lookup in the ordered columns. *)
Fixpoint assoc (c : string) (cols : list (string * list value)) : option (list value) :=
  match cols with
  | [] => None
  | (c', vs) :: rest => if decide (c = c') then Some vs else assoc c rest
  end.

(** [df[c] = vs] on the ordered columns: an existing column keeps its place
    and gets the new cells, a new column is appended. *)
Fixpoint assign (c : string) (vs : list value) (cols : list (string * list value))
  : list (string * list value) :=
  match cols with
  | [] => [(c, vs)]
  | (c', vs') :: rest =>
      if decide (c = c') then (c, vs) :: rest else (c', vs') :: assign c vs rest
  end.

Definition set_column (c : string) (vs : list value) (df : DataFrame) : DataFrame :=
  {| nlevels := nlevels df; index := index df; columns := assign c vs (columns df) |}.

(** A scalar assigned to a column is broadcast to every row. *)
Definition broadcast (df : DataFrame) (v : value) : list value :=
  replicate (row_count df) v.

(** [Series.isin(S)]: a cell is a member when it equals an element of the
    set. *)
Definition isin_cell (ps : gset value) (v : value) : bool :=
  existsb (py_eq v) (elements ps).

Definition isin (ps : gset value) (vs : list value) : list value :=
  (λ v, VBool (isin_cell ps v)) <$> vs.

(** [v in S] *)
Definition py_in (v : value) (ps : gset value) : Prop :=
  ∃ s, s ∈ ps ∧ py_eq v s = true.

(** Every column has one cell per row, every index tuple has one value per
    level, and column names are distinct. *)
Definition well_formed (df : DataFrame) : Prop :=
  Forall (λ cv, length cv.2 = row_count df) (columns df)
  ∧ Forall (λ k, length k = nlevels df) (index df)
  ∧ NoDup (column_names df).

(** Tables are referred to by their location in the store. *)
Abbreviation loc := nat (only parsing).
Abbreviation heap := (list DataFrame) (only parsing).

Inductive exn : Type :=
  | NotImplementedError
  | ValidationError
  | AttributeError
  | KeyError
  | ValueError
  | TypeError.

#[global] Instance exn_eq_dec : EqDecision exn.
Proof. solve_decision. Defined.

Inductive outcome (A : Type) : Type :=
  | Ok (a : A)
  | Raise (e : exn).
Arguments Ok {A} a.
Arguments Raise {A} e.

(** A Python computation: it runs on a store, leaves a store and either
    returns or raises.  What it wrote before raising stays written. *)
Definition M (A : Type) : Type := heap → heap * outcome A.

Definition ret {A} (a : A) : M A := λ h, (h, Ok a).
Definition raise {A} (e : exn) : M A := λ h, (h, Raise e).
Definition bind {A B} (m : M A) (k : A → M B) : M B :=
  λ h, match m h with
       | (h', Ok a) => k a h'
       | (h', Raise e) => (h', Raise e)
       end.

Declare Scope py_scope.
Delimit Scope py_scope with py.
Notation "x <- m ;; k" := (bind m (λ x, k))
  (at level 100, m at next level, right associativity) : py_scope.
Notation "m ;;; k" := (bind m (λ _, k))
  (at level 100, right associativity) : py_scope.
Open Scope py_scope.

(** Dereference a table. *)
Definition get_frame (l : loc) : M DataFrame := λ h, (h, Ok (h !!! l)).

(** [df[c] = vs] on the table at [l], in place. *)
Definition set_item (l : loc) (c : string) (vs : list value) : M unit :=
  λ h, (<[l := set_column c vs (h !!! l)]> h, Ok tt).

(** A new table object. *)
Definition alloc (df : DataFrame) : M loc := λ h, (h ++ [df], Ok (length h)).

(** [df.c]: attribute access to a column. *)
Definition getattr_column (df : DataFrame) (c : string) : M (list value) :=
  match assoc c (columns df) with
  | Some vs => ret vs
  | None => raise AttributeError
  end.

(** What a method may return where a table is expected. *)
Inductive pyobj : Type :=
  | PyNone
  | PyDataFrame (l : loc).

(** ** pandas: [DataFrame.join(other, on=keys)]

    A left join of the caller's key columns against the index of [other].
    Every row of the caller is kept, in order; a row whose key occurs [k > 0]
    times in the index of [other] appears [k] times, a row whose key does not
    occur appears once with nulls in the joined columns. *)

(** The dtype of a column, which pandas infers from its cells. *)
Inductive dtype : Type := Dint64 | Dbool | Dfloat64 | Dobject.

Definition is_int (v : value) : bool :=
  match v with VInt _ => true | _ => false end.

Definition is_bool (v : value) : bool :=
  match v with VBool _ => true | _ => false end.

Definition is_float (v : value) : bool :=
  match v with VFloat _ | VNull => true | _ => false end.

Definition column_dtype (vs : list value) : dtype :=
  match vs with
  | [] => Dobject
  | _ => if forallb is_int vs then Dint64
         else if forallb is_bool vs then Dbool
         else if forallb is_float vs then Dfloat64
         else Dobject
  end.

(** A column of numbers that are not booleans. *)
Definition numeric_like (vs : list value) : bool :=
  match column_dtype vs with
  | Dint64 | Dfloat64 => true
  | Dbool | Dobject => false
  end.

(** A column of objects that pandas takes for strings, or for a mix that
    holds no integer. *)
Definition string_like (vs : list value) : bool :=
  match vs, column_dtype vs with
  | _ :: _, Dobject => negb (existsb is_int vs)
  | _, _ => false
  end.

(** The merge refuses a key of numbers against a key of strings. *)
Definition incompatible (lk rk : list value) : bool :=
  (numeric_like lk && string_like rk) || (string_like lk && numeric_like rk).

(** The cells of level [i] of an index. *)
Definition level (i : nat) (idx : list (list value)) : list value :=
  (λ k, k !!! i) <$> idx.

Definition key_dtypes_clash (df other : DataFrame) (on : list string) : bool :=
  existsb (λ ic, incompatible (default [] (assoc ic.2 (columns df)))
                              (level ic.1 (index other)))
          (zip (seq 0 (length on)) on).

(** A column, or a key, of integers. *)
Definition int_cells (vs : list value) : Prop := Forall (λ v, is_int v = true) vs.

(** The key of row [i]: its cells in the [on] columns. *)
Definition key_at (on : list string) (df : DataFrame) (i : nat) : list value :=
  (λ c, default [] (assoc c (columns df)) !!! i) <$> on.

(** Two keys match when they are equal level by level. *)
Fixpoint keys_eq (k k' : list value) : bool :=
  match k, k' with
  | [], [] => true
  | a :: k, b :: k' => py_eq a b && keys_eq k k'
  | _, _ => false
  end.

(** The positions of [k] in an index. *)
Fixpoint positions (k : list value) (idx : list (list value)) (j : nat) : list nat :=
  match idx with
  | [] => []
  | k' :: rest =>
      if keys_eq k k' then j :: positions k rest (S j) else positions k rest (S j)
  end.

(** For every row of the result, the row of the caller it comes from and the
    matching row of [other], if there is one. *)
Definition join_rows (df other : DataFrame) (on : list string) : list (nat * option nat) :=
  i ← seq 0 (row_count df);
  match positions (key_at on df i) (index other) 0 with
  | [] => [(i, None)]
  | js => (λ j, (i, Some j)) <$> js
  end.

Definition take_left (rows : list (nat * option nat)) (vs : list value) : list value :=
  (λ r, vs !!! r.1) <$> rows.

Definition take_right (rows : list (nat * option nat)) (vs : list value) : list value :=
  (λ r, match r.2 with Some j => vs !!! j | None => VNull end) <$> rows.

(** A row of the caller without a match. *)
Definition unmatched (rows : list (nat * option nat)) : bool :=
  existsb (λ r, match r.2 with None => true | Some _ => false end) rows.

Definition as_float (v : value) : value :=
  match v with VInt z => VFloat z | _ => v end.

(** A joined column that gets a missing value cannot stay a column of
    integers: pandas makes it a column of floats. *)
Definition upcast (missing : bool) (vs : list value) : list value :=
  match missing, column_dtype vs with
  | true, Dint64 => as_float <$> vs
  | _, _ => vs
  end.

Definition join (df other : DataFrame) (on : list string) : exn + DataFrame :=
  if decide (length on ≠ nlevels other) then inl ValueError
  else if decide (Forall (λ c, c ∈ column_names df) on) then
    if key_dtypes_clash df other on then inl ValueError
    else if decide (Forall (λ c, c ∉ column_names df) (column_names other)) then
      let rows := join_rows df other on in
      inr {| nlevels := nlevels df;
             index := (λ r, index df !!! r.1) <$> rows;
             columns := (prod_map id (take_left rows) <$> columns df)
                        ++ (prod_map id (λ vs, take_right rows (upcast (unmatched rows) vs))
                              <$> columns other) |}
    else inl ValueError
  else inl KeyError.

(** [df.join(other, on=keys)] on references; the result is a new table.
    Anything but a table as [other] is refused. *)
Definition DataFrame_join (l : loc) (other : pyobj) (on : list string) : M loc :=
  match other with
  | PyNone => raise ValueError
  | PyDataFrame l' =>
      df <- get_frame l ;;
      o <- get_frame l' ;;
      match join df o on with
      | inl e => raise e
      | inr res => alloc res
      end
  end.

(** ** validations *)

Module validations.

(** Modelled from the spec: [ensure_df_contains] of the module [validations],
    which is not among the sources.  "Fails if any required column is
    absent". *)
Definition ensure_df_contains (required : list string) (df : DataFrame) : M unit :=
  if decide (Forall (λ c, c ∈ column_names df) required)
  then ret tt
  else raise ValidationError.

End validations.

(** ** grammar_ru/common/nlp_analyzer.py *)

Module NlpAnalyzer.

(** An analyzer object: the two attributes set by [__init__] and the method
    a subclass overrides. *)
Record t : Type := mk {
  _required_columns : list string;
  _join_by : list string;
  _analyze_inner : loc → M pyobj
}.

(** [NlpAnalyzer._analyze_inner] as the base class has it. *)
Definition base_analyze_inner (df : loc) : M pyobj := raise NotImplementedError.

(** [NlpAnalyzer(join_by_columns, required_columns)] with nothing overridden. *)
Definition new (join_by_columns required_columns : list string) : t :=
  {| _required_columns := required_columns;
     _join_by := join_by_columns;
     _analyze_inner := base_analyze_inner |}.

Section WithCoordinates.

(** [validations.WordCoordinates], a constant of the module that is not among
    the sources. *)
Variable WordCoordinates : list string.

Definition validate_input (self : t) (df : loc) : M unit :=
  d <- get_frame df ;;
  validations.ensure_df_contains (WordCoordinates ++ _required_columns self) d.

Definition analyze (self : t) (df : loc) : M pyobj :=
  validate_input self df ;;;
  _analyze_inner self df.

Definition apply (self : t) (df : loc) : M loc :=
  r <- analyze self df ;;
  DataFrame_join df r (_join_by self).

End WithCoordinates.

End NlpAnalyzer.

(** ** grammar_ru/analyzers/pymorph/pymorph_analyzer.py *)

(** [PyMorphAnalyzer()]: joins by [word_id], and its inner step is [pass]. *)
Definition PyMorphAnalyzer : NlpAnalyzer.t :=
  {| NlpAnalyzer._required_columns := [];
     NlpAnalyzer._join_by := ["word_id"];
     NlpAnalyzer._analyze_inner := λ _, ret PyNone |}.

(** ** grammar_ru/common/architecture/nlp_algorithm.py *)

Module NlpAlgorithm.

Record t : Type := mk {
  _status_column : string;
  _suggest_column : option string;
  _required_columns : list string;
  _run_inner : loc → M unit
}.

(** [NlpAlgorithm._run_inner] as the base class has it. *)
Definition base_run_inner (df : loc) : M unit := raise NotImplementedError.

Definition new (status_column : string) (suggest_column : option string)
    (required_columns : list string) : t :=
  {| _status_column := status_column;
     _suggest_column := suggest_column;
     _required_columns := required_columns;
     _run_inner := base_run_inner |}.

Definition get_status_column (self : t) : string := _status_column self.
Definition get_suggest_column (self : t) : option string := _suggest_column self.

Definition put_check_requested (df : loc) (paragraphs_to_check : option (gset value)) : M loc :=
  match paragraphs_to_check with
  | None =>
      d <- get_frame df ;;
      set_item df "check_requested" (broadcast d (VBool true))
  | Some ps =>
      d <- get_frame df ;;
      ids <- getattr_column d "paragraph_id" ;;
      set_item df "check_requested" (isin ps ids)
  end ;;;
  ret df.

Section WithCoordinates.

Variable WordCoordinates : list string.

Definition validate_input (self : t) (df : loc) : M unit :=
  d <- get_frame df ;;
  validations.ensure_df_contains
    (WordCoordinates ++ ["check_requested"] ++ _required_columns self) d.

Definition run (self : t) (df : loc) : M unit :=
  put_check_requested df None ;;;
  validate_input self df ;;;
  _run_inner self df.

(** The paragraph separator, a module that is not among the sources: it
    builds the word table of a text. *)
Variable separate_paragraphs : list string → M loc.
Variable separate_string : string → M loc.

Definition run_on_text (self : t) (text : list string)
    (paragraphs_to_check : option (gset value)) : M loc :=
  df <- separate_paragraphs text ;;
  run self df ;;;
  ret df.

Definition run_on_string (self : t) (s : string)
    (paragraphs_to_check : option (gset value)) : M loc :=
  df <- separate_string s ;;
  run self df ;;;
  ret df.

End WithCoordinates.

End NlpAlgorithm.

(** ** grammar_ru/common/nlp_analyzation_pipeline.py *)

Module NlpAnalyzationPipeline.

Record t : Type := mk {
  _analyzers : list (string * NlpAnalyzer.t)
}.

(** [dict(pairs)]: a later pair replaces an earlier one with the same key. *)
Definition py_dict {A} (pairs : list (string * A)) : gmap string A :=
  foldl (λ d p, <[p.1 := p.2]> d) ∅ pairs.

Section WithEnvironment.

Variable WordCoordinates : list string.

(** The data-source and featurization classes of [tg.common.datasets], which
    are not among the sources. *)
Variable DataSource : Type.
Variable records : Type.
Variable kwval : Type.
Variable FeaturizationJob : Type.
Variable get_data : DataSource → M records.
Variable pd_DataFrame : records → M loc.
Variable MockDfDataSource : loc → M DataSource.
Variable FeaturizationJob_init :
  DataSource → gmap string NlpAnalyzer.t → gmap string kwval → M FeaturizationJob.

(** [FeaturizationJob(source=..., featurizers=..., **kwargs)]: a keyword given
    twice is a [TypeError] of the call. *)
Definition source_to_featurization_job (self : t) (source : DataSource)
    (kwargs : gmap string kwval) : M FeaturizationJob :=
  if decide (is_Some (kwargs !! "source") ∨ is_Some (kwargs !! "featurizers"))
  then raise TypeError
  else FeaturizationJob_init source (py_dict (_analyzers self)) kwargs.

Definition df_to_featurization_job (self : t) (df : loc)
    (kwargs : gmap string kwval) : M FeaturizationJob :=
  source <- MockDfDataSource df ;;
  source_to_featurization_job self source kwargs.

(** The loop of [analyze_dataframe], with the dictionary built so far. *)
Fixpoint analyze_loop (analyzers : list (string * NlpAnalyzer.t)) (df : loc)
    (results : gmap string loc) : M (gmap string loc) :=
  match analyzers with
  | [] => ret results
  | (name, analyzer) :: rest =>
      r <- NlpAnalyzer.apply WordCoordinates analyzer df ;;
      analyze_loop rest df (<[name := r]> results)
  end.

Definition analyze_dataframe (self : t) (df : loc) : M (gmap string loc) :=
  analyze_loop (_analyzers self) df ∅.

Definition analyze (self : t) (source : DataSource) : M (gmap string loc) :=
  data <- get_data source ;;
  df <- pd_DataFrame data ;;
  analyze_dataframe self df.

End WithEnvironment.

End NlpAnalyzationPipeline.

(** ** tg/grammar_ru/ml/tasks/n_nn/regular_expressions.py *)

Module regular_expressions.

(** A Python [str] is a sequence of code points.  [utf8] reads the code
    points of a literal of this file, which is a sequence of UTF-8 bytes. *)
Fixpoint utf8_decode (bs : list N) : list N :=
  match bs with
  | [] => []
  | b :: rest =>
      if (b <? 128)%N then b :: utf8_decode rest
      else match rest with
           | [] => []
           | b1 :: rest1 =>
               if (b <? 224)%N
               then ((b - 192) * 64 + (b1 - 128))%N :: utf8_decode rest1
               else match rest1 with
                    | [] => []
                    | b2 :: rest2 =>
                        if (b <? 240)%N
                        then ((b - 224) * 4096 + (b1 - 128) * 64 + (b2 - 128))%N
                               :: utf8_decode rest2
                        else match rest2 with
                             | [] => []
                             | b3 :: rest3 =>
                                 ((b - 240) * 262144 + (b1 - 128) * 4096
                                  + (b2 - 128) * 64 + (b3 - 128))%N
                                   :: utf8_decode rest3
                             end
                    end
           end
  end.

Definition utf8 (s : string) : list N :=
  utf8_decode (Ascii.N_of_ascii <$> String.list_ascii_of_string s).

(** The fragment of [re] patterns the module uses. *)
Inductive regex : Type :=
  | Eps
  | Chr (c : N)
  | NotChr (c : N)
  | Cat (r1 r2 : regex)
  | Alt (r1 r2 : regex)
  | Eol.

(** [$] without [re.MULTILINE]: the end of the string, or just before a
    newline that ends the string. *)
Definition at_end (s : list N) : bool :=
  match s with
  | [] => true
  | [c] => (c =? 10)%N
  | _ => false
  end.

(** Backtracking match of [r] at the head of [s]; [k] decides on the rest. *)
Fixpoint matches (r : regex) (s : list N) (k : list N → bool) : bool :=
  match r with
  | Eps => k s
  | Chr c => match s with x :: s' => (x =? c)%N && k s' | [] => false end
  | NotChr c => match s with x :: s' => negb (x =? c)%N && k s' | [] => false end
  | Cat r1 r2 => matches r1 s (λ s', matches r2 s' k)
  | Alt r1 r2 => matches r1 s k || matches r2 s k
  | Eol => at_end s && k s
  end.

(** [pattern.match(s) is not None] *)
Definition re_match (r : regex) (s : list N) : bool := matches r s (λ _, true).

(** [pattern.search(s) is not None] *)
Fixpoint re_search (r : regex) (s : list N) : bool :=
  re_match r s || match s with [] => false | _ :: s' => re_search r s' end.

(** A literal word, and an alternation of literal words. *)
Definition lit (w : list N) : regex := foldr (λ c r, Cat (Chr c) r) Eps w.

Fixpoint alts (ws : list (list N)) : regex :=
  match ws with
  | [] => Eps
  | [w] => lit w
  | w :: rest => Alt (lit w) (alts rest)
  end.

(** The letter [н]. *)
Definition letter_n : N := 1085.

Definition endings : list (list N) :=
  utf8 <$> ["ыми"; "ее"; "их"; "ых"; "ая"; "ого"; "ей"; "ом"; "ему"; "ие"; "ые";
            "ую"; "им"; "ем"; "ому"; "ой"; "ое"; "его"; "ый"; "ими"; "ым"; "ий"].

(** [[^н]н(?:endings)$] *)
Definition single_n_regex : regex :=
  Cat (NotChr letter_n) (Cat (Chr letter_n) (Cat (alts endings) Eol)).

(** [нн(?:endings)$] *)
Definition double_n_regex : regex :=
  Cat (Chr letter_n) (Cat (Chr letter_n) (Cat (alts endings) Eol)).

End regular_expressions.

(** ** Contracts of the overridable steps *)

(** An inner step that is a function of the table's contents: it reads the
    table, writes nothing, and returns [None], raises, or returns a newly
    built table. *)
Definition pure_inner (f : DataFrame → exn + option DataFrame) (df : loc) : M pyobj :=
  d <- get_frame df ;;
  match f d with
  | inl e => raise e
  | inr None => ret PyNone
  | inr (Some out) => o <- alloc out ;; ret (PyDataFrame o)
  end.

Definition stateless (a : NlpAnalyzer.t) (f : DataFrame → exn + option DataFrame) : Prop :=
  ∀ l h, NlpAnalyzer._analyze_inner a l h = pure_inner f l h.

(** The table as [put_check_requested] leaves it when no set is given. *)
Definition checked (df : DataFrame) : DataFrame :=
  set_column "check_requested" (broadcast df (VBool true)) df.

(** The table a computation returns, if it returns one. *)
Definition returned_table (r : heap * outcome loc) : option DataFrame :=
  match r with
  | (h, Ok l) => h !! l
  | (_, Raise _) => None
  end.

(** ** Sample data *)

Definition coordinates : list string := ["word_id"; "sentence_id"; "paragraph_id"].

(** Two words of one sentence of paragraph 1. *)
Definition two_words : DataFrame :=
  {| nlevels := 1;
     index := [[VInt 0]; [VInt 1]];
     columns := [("word_id", [VInt 0; VInt 1]);
                 ("sentence_id", [VInt 0; VInt 0]);
                 ("paragraph_id", [VInt 1; VInt 1])] |}.

(** An analyzer deriving one column [X], keyed by [word_id], for the words
    with an even id. *)
Definition even_words (d : DataFrame) : list value :=
  List.filter (λ v, match v with VInt z => Z.even z | _ => false end)
              (default [] (assoc "word_id" (columns d))).

Definition x_table (d : DataFrame) : DataFrame :=
  {| nlevels := 1;
     index := (λ v, [v]) <$> even_words d;
     columns := [("X", (λ _, VStr "x") <$> even_words d)] |}.

Definition x_analyzer : NlpAnalyzer.t :=
  {| NlpAnalyzer._required_columns := [];
     NlpAnalyzer._join_by := ["word_id"];
     NlpAnalyzer._analyze_inner := pure_inner (λ d, inr (Some (x_table d))) |}.

(** An analyzer whose output lists word 0 twice. *)
Definition twice_table : DataFrame :=
  {| nlevels := 1;
     index := [[VInt 0]; [VInt 0]];
     columns := [("Y", [VStr "a"; VStr "b"])] |}.

Definition twice_analyzer : NlpAnalyzer.t :=
  {| NlpAnalyzer._required_columns := [];
     NlpAnalyzer._join_by := ["word_id"];
     NlpAnalyzer._analyze_inner := pure_inner (λ _, inr (Some twice_table)) |}.

(** An analyzer whose output repeats a column of the input. *)
Definition sentence_table : DataFrame :=
  {| nlevels := 1;
     index := [[VInt 0]; [VInt 1]];
     columns := [("sentence_id", [VInt 7; VInt 7])] |}.

Definition sentence_analyzer : NlpAnalyzer.t :=
  {| NlpAnalyzer._required_columns := [];
     NlpAnalyzer._join_by := ["word_id"];
     NlpAnalyzer._analyze_inner := pure_inner (λ _, inr (Some sentence_table)) |}.

(** A separator that knows one text. *)
Definition sample_separate {A} (x : A) : M loc := alloc two_words.

(** An algorithm that needs a column [X] and overrides nothing. *)
Definition x_algorithm : NlpAlgorithm.t := NlpAlgorithm.new "status" None ["X"].

(** An algorithm that needs no further column and whose inner step writes a
    status. *)
Definition ok_algorithm : NlpAlgorithm.t :=
  {| NlpAlgorithm._status_column := "status";
     NlpAlgorithm._suggest_column := None;
     NlpAlgorithm._required_columns := [];
     NlpAlgorithm._run_inner := λ l, d <- get_frame l ;; set_item l "status" (broadcast d (VBool false)) |}.

(** A table of two words that has no [paragraph_id]. *)
Definition no_paragraphs : DataFrame :=
  {| nlevels := 1;
     index := [[VInt 0]; [VInt 1]];
     columns := [("word_id", [VInt 0; VInt 1])] |}.

(** An analyzer that joins by a column the validation does not ask for. *)
Definition token_analyzer : NlpAnalyzer.t :=
  {| NlpAnalyzer._required_columns := [];
     NlpAnalyzer._join_by := ["token_id"];
     NlpAnalyzer._analyze_inner := pure_inner (λ d, inr (Some (x_table d))) |}.

(** A featurization job that records what it was constructed with, and a
    mock source that is the table it wraps. *)
Definition sample_job : Type := (loc * gmap string NlpAnalyzer.t * gmap string value)%type.

Definition sample_job_init (source : loc) (featurizers : gmap string NlpAnalyzer.t)
    (kwargs : gmap string value) : M sample_job :=
  ret (source, featurizers, kwargs).

Definition sample_mock (df : loc) : M loc := ret df.

(** An analyzer whose inner step writes a column into the table it is
    handed before it returns its derived table. *)
Definition marking_analyzer : NlpAnalyzer.t :=
  {| NlpAnalyzer._required_columns := [];
     NlpAnalyzer._join_by := ["word_id"];
     NlpAnalyzer._analyze_inner := λ l,
       d <- get_frame l ;;
       set_item l "seen" (broadcast d (VBool true)) ;;;
       o <- alloc (x_table d) ;;
       ret (PyDataFrame o) |}.

(** Two words whose paragraph ids are booleans. *)
Definition bool_paragraphs : DataFrame :=
  {| nlevels := 1;
     index := [[VInt 0]; [VInt 1]];
     columns := [("word_id", [VInt 0; VInt 1]);
                 ("paragraph_id", [VBool true; VBool false])] |}.

(** Derived tables keyed by strings, by booleans, and with a column of
    integers for word 0 only. *)
Definition string_keyed : DataFrame :=
  {| nlevels := 1;
     index := [[VStr "a"]; [VStr "b"]];
     columns := [("X", [VInt 1; VInt 2])] |}.

Definition bool_keyed : DataFrame :=
  {| nlevels := 1;
     index := [[VBool true]; [VBool true]];
     columns := [("X", [VInt 1; VInt 2])] |}.

Definition count_table : DataFrame :=
  {| nlevels := 1;
     index := [[VInt 0]];
     columns := [("N", [VInt 7])] |}.


(** ** The table model *)

Lemma assoc_assign_eq c vs cols : assoc c (assign c vs cols) = Some vs.
Proof.
  induction cols as [|[c' vs'] cols IH]; simpl.
  - by rewrite decide_True.
  - destruct (decide (c = c')); simpl.
    + by rewrite decide_True.
    + by rewrite decide_False.
Qed.

Lemma assoc_assign_ne c c' vs cols : c ≠ c' → assoc c' (assign c vs cols) = assoc c' cols.
Proof.
  intros Hne. induction cols as [|[c'' vs'] cols IH]; simpl.
  - by rewrite decide_False.
  - destruct (decide (c = c'')) as [->|]; simpl.
    + by rewrite !decide_False.
    + destruct (decide (c' = c'')); done.
Qed.

Lemma assoc_Some_elem c vs cols : assoc c cols = Some vs → (c, vs) ∈ cols.
Proof.
  induction cols as [|[c' vs'] cols IH]; simpl; [done|].
  destruct (decide (c = c')) as [->|].
  - intros [= ->]. left.
  - intros H. right. auto.
Qed.

Lemma assoc_None_names c cols : assoc c cols = None ↔ c ∉ cols.*1.
Proof.
  induction cols as [|[c' vs'] cols IH]; simpl.
  - split; [intros _; apply not_elem_of_nil | done].
  - rewrite not_elem_of_cons. destruct (decide (c = c')); naive_solver.
Qed.

Lemma assoc_is_Some_names c cols : is_Some (assoc c cols) ↔ c ∈ cols.*1.
Proof.
  rewrite <- not_eq_None_Some, assoc_None_names.
  destruct (decide (c ∈ cols.*1)); naive_solver.
Qed.

Lemma assign_names_elem c c' vs cols : c' ∈ (assign c vs cols).*1 ↔ c' = c ∨ c' ∈ cols.*1.
Proof.
  rewrite <- !assoc_is_Some_names. destruct (decide (c = c')) as [->|].
  - rewrite assoc_assign_eq. naive_solver.
  - rewrite assoc_assign_ne by done. naive_solver.
Qed.

(** Unfolding the computations of the store. *)
Ltac py_unfold :=
  repeat (progress (unfold bind, ret, raise, get_frame, set_item, alloc, getattr_column;
                    cbv beta iota)).

(** The same, using what is known of the store on the way. *)
Tactic Notation "py_run" "with" constr(Hl) :=
  py_unfold; repeat (progress (rewrite ?(list_lookup_total_correct _ _ _ Hl)); py_unfold).

Lemma isin_cell_true ps v : isin_cell ps v = true ↔ py_in v ps.
Proof.
  unfold isin_cell, py_in. rewrite existsb_exists. split.
  - intros (s & Hin & Heq). exists s. split; [|done].
    apply elem_of_elements. by apply list_elem_of_In.
  - intros (s & Hin & Heq). exists s. split; [|done].
    apply list_elem_of_In. by apply elem_of_elements.
Qed.

(** ** NlpAlgorithm.put_check_requested *)

(** C2.  [put_check_requested] returns the reference it was given and, in
    the store, replaces that table by itself with a column [check_requested]
    of booleans added (no other column, no other table and not the index
    changes).  Without a set every row is marked true; with a set [ps], and a
    [paragraph_id] column to look at, a row is marked true exactly when its
    paragraph id is a member of [ps] ([id in ps], by Python's equality). *)
Theorem put_check_requested_marks (h : heap) (l : loc) (df : DataFrame)
    (pc : option (gset value)) (ids : list value) :
  h !! l = Some df →
  (pc ≠ None → assoc "paragraph_id" (columns df) = Some ids) →
  ∃ (h' : heap) (df' : DataFrame) (flags : list bool),
    NlpAlgorithm.put_check_requested l pc h = (h', Ok l)
    ∧ h' = <[l := df']> h
    ∧ index df' = index df ∧ nlevels df' = nlevels df
    ∧ (∀ c, c ≠ "check_requested" → assoc c (columns df') = assoc c (columns df))
    ∧ assoc "check_requested" (columns df') = Some (VBool <$> flags)
    ∧ match pc with
      | None => flags = replicate (row_count df) true
      | Some ps =>
          length flags = length ids
          ∧ ∀ i b, flags !! i = Some b →
                   (b = true ↔ ∃ v, ids !! i = Some v ∧ py_in v ps)
      end.
Proof.
  intros Hl Hids. unfold NlpAlgorithm.put_check_requested.
  destruct pc as [ps|].
  - specialize (Hids ltac:(done)).
    exists (<[l := set_column "check_requested" (isin ps ids) df]> h),
           (set_column "check_requested" (isin ps ids) df),
           (isin_cell ps <$> ids).
    py_run with Hl. rewrite Hids. py_run with Hl.
    split_and!; try done.
    + intros c Hc. by apply assoc_assign_ne.
    + cbn [set_column columns]. rewrite assoc_assign_eq. unfold isin.
      by rewrite <- list_fmap_compose.
    + by rewrite length_fmap.
    + intros i b Hb. apply list_lookup_fmap_Some in Hb as (v & -> & Hv).
      rewrite isin_cell_true. split.
      * intros Hin. by exists v.
      * intros (v' & Hv' & Hin). by replace v with v' by congruence.
  - exists (<[l := set_column "check_requested" (broadcast df (VBool true)) df]> h),
           (set_column "check_requested" (broadcast df (VBool true)) df),
           (replicate (row_count df) true).
    py_run with Hl.
    split_and!; try done.
    + intros c Hc. by apply assoc_assign_ne.
    + cbn [set_column columns]. rewrite assoc_assign_eq. unfold broadcast.
      by rewrite fmap_replicate.
Qed.

(** ** Validation *)

Lemma ensure_df_contains_ok required df h :
  Forall (λ c, c ∈ column_names df) required →
  validations.ensure_df_contains required df h = (h, Ok tt).
Proof. intros Hall. unfold validations.ensure_df_contains. by rewrite decide_True. Qed.

Lemma ensure_df_contains_missing required df h c :
  c ∈ required → c ∉ column_names df →
  validations.ensure_df_contains required df h = (h, Raise ValidationError).
Proof.
  intros Hc Hmiss. unfold validations.ensure_df_contains.
  rewrite decide_False; [done|].
  intros Hall. rewrite Forall_forall in Hall. auto.
Qed.

Lemma ensure_df_contains_cases required df h :
  validations.ensure_df_contains required df h = (h, Ok tt)
  ∨ validations.ensure_df_contains required df h = (h, Raise ValidationError).
Proof. unfold validations.ensure_df_contains. case_decide; [by left | by right]. Qed.

Lemma column_names_checked df c :
  c ∈ column_names (checked df) ↔ c = "check_requested" ∨ c ∈ column_names df.
Proof. unfold column_names, checked, set_column; simpl. apply assign_names_elem. Qed.

Lemma put_check_requested_None h l df :
  h !! l = Some df →
  NlpAlgorithm.put_check_requested l None h = (<[l := checked df]> h, Ok l).
Proof. intros Hl. unfold NlpAlgorithm.put_check_requested. by py_run with Hl. Qed.

Lemma lookup_written (h : heap) l df df' : h !! l = Some df → <[l := df']> h !! l = Some df'.
Proof. intros Hl. apply list_lookup_insert_eq. by eapply lookup_lt_Some. Qed.

(** [run], step by step, on an allocated table. *)
Lemma run_steps WC g l h df :
  h !! l = Some df →
  NlpAlgorithm.run WC g l h =
    match validations.ensure_df_contains
            (WC ++ ["check_requested"] ++ NlpAlgorithm._required_columns g)
            (checked df) (<[l := checked df]> h) with
    | (h1, Ok _) => NlpAlgorithm._run_inner g l h1
    | (h1, Raise e) => (h1, Raise e)
    end.
Proof.
  intros Hl. unfold NlpAlgorithm.run.
  unfold bind at 1. rewrite (put_check_requested_None _ _ _ Hl).
  unfold bind at 1. unfold NlpAlgorithm.validate_input.
  pose proof (lookup_written h l df (checked df) Hl) as Hl1.
  by py_run with Hl1.
Qed.

(** An analyzer validates on the store as it is. *)
Lemma analyze_steps WC a l h df :
  h !! l = Some df →
  NlpAnalyzer.analyze WC a l h =
    match validations.ensure_df_contains (WC ++ NlpAnalyzer._required_columns a) df h with
    | (h1, Ok _) => NlpAnalyzer._analyze_inner a l h1
    | (h1, Raise e) => (h1, Raise e)
    end.
Proof.
  intros Hl. unfold NlpAnalyzer.analyze, NlpAnalyzer.validate_input.
  by py_run with Hl.
Qed.

(** ** NlpAlgorithm.run *)

(** C5.  [run] is [put_check_requested], then [validate_input], then the
    inner step, each on the store the previous one left and all on the one
    table it was given: the flags are written into that table in place, the
    validation sees them, a failed validation ends the run before the inner
    step, and otherwise the run is what the inner step does to that table.
    [run] returns no table. *)
Theorem run_composes_in_order (WC : list string) (g : NlpAlgorithm.t)
    (l : loc) (h : heap) (df : DataFrame) :
  h !! l = Some df →
  ∃ h1 : heap,
    NlpAlgorithm.put_check_requested l None h = (h1, Ok l)
    ∧ h1 = <[l := checked df]> h
    ∧ length h1 = length h
    ∧ (NlpAlgorithm.validate_input WC g l h1 = (h1, Ok tt)
       ∨ NlpAlgorithm.validate_input WC g l h1 = (h1, Raise ValidationError))
    ∧ (NlpAlgorithm.validate_input WC g l h1 = (h1, Raise ValidationError) →
       NlpAlgorithm.run WC g l h = (h1, Raise ValidationError))
    ∧ (NlpAlgorithm.validate_input WC g l h1 = (h1, Ok tt) →
       NlpAlgorithm.run WC g l h = NlpAlgorithm._run_inner g l h1).
Proof.
  intros Hl. exists (<[l := checked df]> h).
  pose proof (lookup_written h l df (checked df) Hl) as Hl1.
  assert (Hv : NlpAlgorithm.validate_input WC g l (<[l := checked df]> h)
               = validations.ensure_df_contains
                   (WC ++ ["check_requested"] ++ NlpAlgorithm._required_columns g)
                   (checked df) (<[l := checked df]> h)).
  { unfold NlpAlgorithm.validate_input. by py_run with Hl1. }
  rewrite Hv, (run_steps WC g l h df Hl).
  split_and!.
  - by apply put_check_requested_None.
  - done.
  - apply length_insert.
  - apply ensure_df_contains_cases.
  - by intros ->.
  - by intros ->.
Qed.

(** ** Missing columns *)

(** C1, as the code has it.  A table that lacks a required column makes
    [analyze] and [apply] raise the validation error with the store exactly
    as it was, whatever the inner step is: nothing ran and nothing was
    written.  [run] raises the validation error too when the missing column
    is not [check_requested] itself, again whatever the inner step is, but by
    then [put_check_requested] has written its column: the table is the
    original one with [check_requested] true in every row, and nothing else
    in the store has changed. *)
Theorem missing_column_fails_before_inner_step (WC : list string)
    (l : loc) (h : heap) (df : DataFrame) (c : string) :
  h !! l = Some df →
  c ∉ column_names df →
  (∀ a : NlpAnalyzer.t,
     c ∈ WC ++ NlpAnalyzer._required_columns a →
     NlpAnalyzer.analyze WC a l h = (h, Raise ValidationError)
     ∧ NlpAnalyzer.apply WC a l h = (h, Raise ValidationError))
  ∧ (∀ g : NlpAlgorithm.t,
       c ∈ WC ++ NlpAlgorithm._required_columns g →
       c ≠ "check_requested" →
       NlpAlgorithm.run WC g l h = (<[l := checked df]> h, Raise ValidationError)).
Proof.
  intros Hl Hmiss. split.
  - intros a Hc.
    assert (Ha : NlpAnalyzer.analyze WC a l h = (h, Raise ValidationError)).
    { rewrite (analyze_steps WC a l h df Hl).
      by rewrite (ensure_df_contains_missing _ df h c Hc Hmiss). }
    split; [done|]. unfold NlpAnalyzer.apply, bind. by rewrite Ha.
  - intros g Hc Hne. rewrite (run_steps WC g l h df Hl).
    rewrite (ensure_df_contains_missing _ (checked df) _ c); [done| |].
    + apply elem_of_app in Hc as [Hc|Hc]; apply elem_of_app; [by left|].
      right. apply elem_of_app. by right.
    + rewrite column_names_checked. by intros [?|?].
Qed.

(** ** Steps that are not overridden *)

(** C6.  With the inner step of the base class, [analyze] and [apply] of an
    analyzer and [run] of an algorithm raise [NotImplementedError] on a table
    that has every required column.  [run] has marked the table by then. *)
Theorem not_overridden_raises_not_implemented (WC : list string)
    (l : loc) (h : heap) (df : DataFrame) :
  h !! l = Some df →
  (∀ a : NlpAnalyzer.t,
     NlpAnalyzer._analyze_inner a = NlpAnalyzer.base_analyze_inner →
     Forall (λ c, c ∈ column_names df) (WC ++ NlpAnalyzer._required_columns a) →
     NlpAnalyzer.analyze WC a l h = (h, Raise NotImplementedError)
     ∧ NlpAnalyzer.apply WC a l h = (h, Raise NotImplementedError))
  ∧ (∀ g : NlpAlgorithm.t,
       NlpAlgorithm._run_inner g = NlpAlgorithm.base_run_inner →
       Forall (λ c, c ∈ column_names df) (WC ++ NlpAlgorithm._required_columns g) →
       NlpAlgorithm.run WC g l h = (<[l := checked df]> h, Raise NotImplementedError)).
Proof.
  intros Hl. split.
  - intros a Hbase Hvalid.
    assert (Ha : NlpAnalyzer.analyze WC a l h = (h, Raise NotImplementedError)).
    { rewrite (analyze_steps WC a l h df Hl).
      rewrite (ensure_df_contains_ok _ df h Hvalid). by rewrite Hbase. }
    split; [done|]. unfold NlpAnalyzer.apply, bind. by rewrite Ha.
  - intros g Hbase Hvalid. rewrite (run_steps WC g l h df Hl).
    rewrite ensure_df_contains_ok; [by rewrite Hbase|].
    rewrite Forall_forall in Hvalid |- *. intros c Hc.
    rewrite column_names_checked.
    apply elem_of_app in Hc as [Hc|Hc]; [|apply elem_of_app in Hc as [Hc|Hc]].
    + right. apply Hvalid. apply elem_of_app. by left.
    + left. by apply list_elem_of_singleton in Hc.
    + right. apply Hvalid. apply elem_of_app. by right.
Qed.

(** ** PyMorphAnalyzer *)

(** C10.  The inner step of [PyMorphAnalyzer] is overridden by [pass]: on a
    table with the word coordinates [analyze] returns [None], raises nothing
    and leaves the store as it was. *)
Theorem pymorph_analyze_returns_none (WC : list string)
    (l : loc) (h : heap) (df : DataFrame) :
  h !! l = Some df →
  Forall (λ c, c ∈ column_names df) WC →
  NlpAnalyzer.analyze WC PyMorphAnalyzer l h = (h, Ok PyNone).
Proof.
  intros Hl Hvalid. rewrite (analyze_steps WC _ l h df Hl).
  rewrite ensure_df_contains_ok; [done|].
  simpl. by rewrite app_nil_r.
Qed.

(** ** NlpAlgorithm.run_on_text and run_on_string *)

Lemma run_on_steps {A} WC (separate : A → M loc) g (x : A) h h0 l df :
  separate x h = (h0, Ok l) →
  h0 !! l = Some df →
  Forall (λ c, c ∈ column_names df) (WC ++ NlpAlgorithm._required_columns g) →
  (df' <- separate x ;; NlpAlgorithm.run WC g df' ;;; ret df') h =
    match NlpAlgorithm._run_inner g l (<[l := checked df]> h0) with
    | (h2, Ok _) => (h2, Ok l)
    | (h2, Raise e) => (h2, Raise e)
    end.
Proof.
  intros Hsep Hl Hvalid. unfold bind at 1. rewrite Hsep.
  unfold bind at 1. rewrite (run_steps WC g l h0 df Hl).
  rewrite ensure_df_contains_ok; [done|].
  rewrite Forall_forall in Hvalid |- *. intros c Hc.
  rewrite column_names_checked.
  apply elem_of_app in Hc as [Hc|Hc]; [|apply elem_of_app in Hc as [Hc|Hc]].
  - right. apply Hvalid. apply elem_of_app. by left.
  - left. by apply list_elem_of_singleton in Hc.
  - right. apply Hvalid. apply elem_of_app. by right.
Qed.

(** C9.  [run_on_text] and [run_on_string] do the same with a set of
    paragraphs as without one.  On a text whose word table is valid, the
    inner step receives that table with [check_requested] true in every row,
    whatever set was given, and the entry point returns the table the inner
    step leaves. *)
Theorem run_on_text_ignores_paragraphs_to_check (WC : list string)
    (separate_paragraphs : list string → M loc) (separate_string : string → M loc)
    (g : NlpAlgorithm.t) (ps : gset value) :
  (∀ text h,
     NlpAlgorithm.run_on_text WC separate_paragraphs g text (Some ps) h
     = NlpAlgorithm.run_on_text WC separate_paragraphs g text None h)
  ∧ (∀ s h,
       NlpAlgorithm.run_on_string WC separate_string g s (Some ps) h
       = NlpAlgorithm.run_on_string WC separate_string g s None h)
  ∧ (∀ text h h0 l df,
       separate_paragraphs text h = (h0, Ok l) →
       h0 !! l = Some df →
       Forall (λ c, c ∈ column_names df) (WC ++ NlpAlgorithm._required_columns g) →
       assoc "check_requested" (columns (checked df))
         = Some (replicate (row_count df) (VBool true))
       ∧ NlpAlgorithm.run_on_text WC separate_paragraphs g text (Some ps) h =
           match NlpAlgorithm._run_inner g l (<[l := checked df]> h0) with
           | (h2, Ok _) => (h2, Ok l)
           | (h2, Raise e) => (h2, Raise e)
           end)
  ∧ (∀ s h h0 l df,
       separate_string s h = (h0, Ok l) →
       h0 !! l = Some df →
       Forall (λ c, c ∈ column_names df) (WC ++ NlpAlgorithm._required_columns g) →
       assoc "check_requested" (columns (checked df))
         = Some (replicate (row_count df) (VBool true))
       ∧ NlpAlgorithm.run_on_string WC separate_string g s (Some ps) h =
           match NlpAlgorithm._run_inner g l (<[l := checked df]> h0) with
           | (h2, Ok _) => (h2, Ok l)
           | (h2, Raise e) => (h2, Raise e)
           end).
Proof.
  split_and!.
  - done.
  - done.
  - intros text h h0 l df Hsep Hl Hvalid. split.
    + unfold checked. cbn [set_column columns]. apply assoc_assign_eq.
    + by apply (run_on_steps WC separate_paragraphs g text h h0 l df).
  - intros s h h0 l df Hsep Hl Hvalid. split.
    + unfold checked. cbn [set_column columns]. apply assoc_assign_eq.
    + by apply (run_on_steps WC separate_string g s h h0 l df).
Qed.

(** ** The left join *)



Lemma names_fmap (f : list value → list value) (cols : list (string * list value)) :
  (prod_map id f <$> cols).*1 = cols.*1.
Proof. induction cols as [|[c' vs'] cols IH]; simpl; [done|]. by f_equal. Qed.

Lemma py_eq_int a b : py_eq (VInt a) (VInt b) = true ↔ a = b.
Proof. unfold py_eq; cbn [number]. apply Z.eqb_eq. Qed.

(** Keys of integers match when they are the same key. *)
Lemma keys_eq_int k k' :
  int_cells k → int_cells k' → keys_eq k k' = true ↔ k = k'.
Proof.
  intros Hk. revert k'. induction Hk as [|a k Ha Hk IH]; intros k' Hk'.
  - destruct Hk' as [|b k' _ _]; cbn [keys_eq]; naive_solver.
  - destruct Hk' as [|b k' Hb Hk']; cbn [keys_eq]; [naive_solver|].
    destruct a as [| |a| |]; try discriminate Ha.
    destruct b as [| |b| |]; try discriminate Hb.
    rewrite andb_true_iff, py_eq_int, (IH k' Hk'). naive_solver.
Qed.

Lemma positions_absent k idx j :
  (∀ k', k' ∈ idx → keys_eq k k' = true ↔ k = k') →
  k ∉ idx → positions k idx j = [].
Proof.
  revert j. induction idx as [|k' idx IH]; intros j Hcmp Hk; [done|].
  cbn [positions]. apply not_elem_of_cons in Hk as [Hne Hk].
  destruct (keys_eq k k') eqn:Heq.
  - exfalso. apply Hne, Hcmp; [left | done].
  - apply IH; [|done]. intros k'' Hin. apply Hcmp. by right.
Qed.











Lemma found_None k idx :
  (∀ k', k' ∈ idx → keys_eq k k' = true ↔ k = k') →
  k ∉ idx → head (positions k idx 0) = None.
Proof. intros Hcmp Hk. by rewrite positions_absent. Qed.

Lemma found_in k idx j :
  (∀ k', k' ∈ idx → keys_eq k k' = true ↔ k = k') →
  head (positions k idx 0) = Some j → k ∈ idx.
Proof.
  intros Hcmp Hj. destruct (decide (k ∈ idx)) as [|Hout]; [done|].
  by rewrite (found_None k idx Hcmp Hout) in Hj.
Qed.


Lemma key_at_int on df i :
  well_formed df →
  (∀ c vs, c ∈ on → assoc c (columns df) = Some vs → int_cells vs) →
  Forall (λ c, c ∈ column_names df) on →
  i < row_count df →
  int_cells (key_at on df i).
Proof.
  intros (Hcols & _ & _) Hint Hon Hi. unfold key_at, int_cells.
  apply Forall_fmap, Forall_forall. intros c Hc. cbn.
  rewrite Forall_forall in Hon. specialize (Hon c Hc).
  apply assoc_is_Some_names in Hon as [vs Hvs]. rewrite Hvs. cbn.
  rewrite Forall_forall in Hcols.
  pose proof (Hcols (c, vs) (assoc_Some_elem _ _ _ Hvs)) as Hlen. cbn in Hlen.
  destruct (lookup_lt_is_Some_2 vs i) as [v Hv]; [lia|].
  rewrite (list_lookup_total_correct _ _ _ Hv).
  specialize (Hint c vs Hc Hvs). unfold int_cells in Hint.
  rewrite Forall_forall in Hint. apply Hint. by eapply list_elem_of_lookup_2.
Qed.


(** ** NlpAnalyzer.apply *)

Lemma apply_steps WC a l h :
  NlpAnalyzer.apply WC a l h =
    match NlpAnalyzer.analyze WC a l h with
    | (h1, Ok PyNone) => (h1, Raise ValueError)
    | (h1, Ok (PyDataFrame lo)) =>
        match join (h1 !!! l) (h1 !!! lo) (NlpAnalyzer._join_by a) with
        | inl e => (h1, Raise e)
        | inr res => (h1 ++ [res], Ok (length h1))
        end
    | (h1, Raise e) => (h1, Raise e)
    end.
Proof.
  unfold NlpAnalyzer.apply, bind at 1.
  destruct (NlpAnalyzer.analyze WC a l h) as [h1 [[|lo]|e]]; try done.
  unfold DataFrame_join. py_unfold.
  by destruct (join (h1 !!! l) (h1 !!! lo) (NlpAnalyzer._join_by a)).
Qed.


Lemma join_inr df other on res :
  join df other on = inr res →
  res = {| nlevels := nlevels df;
           index := (λ r, index df !!! r.1) <$> join_rows df other on;
           columns := (prod_map id (take_left (join_rows df other on)) <$> columns df)
                      ++ (prod_map id (λ vs, take_right (join_rows df other on)
                                               (upcast (unmatched (join_rows df other on)) vs))
                            <$> columns other) |}.
Proof.
  unfold join. case_decide; [done|]. case_decide; [|done].
  destruct (key_dtypes_clash df other on); [done|]. case_decide; [|done].
  by intros [= <-].
Qed.

Lemma join_column_names df other on res :
  join df other on = inr res → column_names res = column_names df ++ column_names other.
Proof.
  intros ->%join_inr. unfold column_names. cbn [columns].
  by rewrite fmap_app, !names_fmap.
Qed.

(** C8, as the code has it.  [apply] itself writes to no existing table: if
    the inner step leaves the input table as it is, so does [apply], however
    it ends.  When [apply] returns, what it returns is a table allocated
    after everything else, not the input, holding the columns of the input
    followed by those the inner step returned. *)
Theorem apply_leaves_input_unchanged (WC : list string) (a : NlpAnalyzer.t)
    (l : loc) (h : heap) (df : DataFrame) :
  h !! l = Some df →
  (NlpAnalyzer._analyze_inner a l h).1 !! l = Some df →
  (NlpAnalyzer.apply WC a l h).1 !! l = Some df
  ∧ ∀ h' l', NlpAnalyzer.apply WC a l h = (h', Ok l') →
      ∃ h1 lo res,
        NlpAnalyzer._analyze_inner a l h = (h1, Ok (PyDataFrame lo))
        ∧ h' = h1 ++ [res]
        ∧ l' = length h1
        ∧ l' ≠ l
        ∧ h' !! l' = Some res
        ∧ column_names res = column_names df ++ column_names (h1 !!! lo).
Proof.
  intros Hl Hframe. rewrite apply_steps, (analyze_steps WC a l h df Hl).
  destruct (ensure_df_contains_cases (WC ++ NlpAnalyzer._required_columns a) df h)
    as [-> | ->]; [|split; [done | by intros h' l' [=]]].
  destruct (NlpAnalyzer._analyze_inner a l h) as [h1 [[|lo]|e]] eqn:Hinner;
    simpl in Hframe; try (split; [done | by intros h' l' [=]]).
  rewrite (list_lookup_total_correct h1 l df Hframe).
  destruct (join df (h1 !!! lo) (NlpAnalyzer._join_by a)) as [e|res] eqn:Hjoin;
    [split; [done | by intros h' l' [=]]|].
  pose proof (lookup_lt_Some _ _ _ Hframe) as Hlt.
  split.
  - cbn [fst]. by rewrite lookup_app_l.
  - intros h' l' [= <- <-]. exists h1, lo, res. split_and!; try done.
    + lia.
    + rewrite lookup_app_r by lia. by rewrite Nat.sub_diag.
    + by apply (join_column_names _ _ (NlpAnalyzer._join_by a)).
Qed.

(** ** NlpAnalyzationPipeline *)

(** An analyzer whose inner step is a function of the table does the same
    on every store that holds the table: either [apply] returns, having
    allocated the derived table and then the joined one, or it raises. *)
Lemma apply_stateless WC a f l df :
  stateless a f →
  (∃ out res, ∀ h, h !! l = Some df →
      NlpAnalyzer.apply WC a l h = (h ++ [out; res], Ok (S (length h))))
  ∨ (∀ h, h !! l = Some df → ∃ h' e, NlpAnalyzer.apply WC a l h = (h', Raise e)).
Proof.
  intros Hpure.
  assert (Hsteps : ∀ h, h !! l = Some df →
    NlpAnalyzer.apply WC a l h =
      match validations.ensure_df_contains (WC ++ NlpAnalyzer._required_columns a) df h with
      | (h1, Ok _) =>
          match f df with
          | inl e => (h1, Raise e)
          | inr None => (h1, Raise ValueError)
          | inr (Some out) =>
              match join df out (NlpAnalyzer._join_by a) with
              | inl e => (h1 ++ [out], Raise e)
              | inr res => (h1 ++ [out; res], Ok (S (length h1)))
              end
          end
      | (h1, Raise e) => (h1, Raise e)
      end).
  { intros h Hl. rewrite apply_steps, (analyze_steps WC a l h df Hl).
    destruct (ensure_df_contains_cases (WC ++ NlpAnalyzer._required_columns a) df h)
      as [-> | ->]; [|done].
    rewrite Hpure. unfold pure_inner. py_run with Hl.
    destruct (f df) as [e|[out|]]; py_unfold; try done.
    assert (Hl' : (h ++ [out]) !! l = Some df).
    { rewrite lookup_app_l; [done | by eapply lookup_lt_Some]. }
    assert (Hout : (h ++ [out]) !! length h = Some out).
    { rewrite lookup_app_r by lia. by rewrite Nat.sub_diag. }
    rewrite (list_lookup_total_correct _ _ _ Hl'), (list_lookup_total_correct _ _ _ Hout).
    destruct (join df out (NlpAnalyzer._join_by a)) as [e|res]; [done|].
    rewrite <- app_assoc, length_app. simpl. do 2 f_equal. lia. }
  unfold validations.ensure_df_contains in Hsteps.
  destruct (decide (Forall (λ c, c ∈ column_names df) (WC ++ NlpAnalyzer._required_columns a))).
  - destruct (f df) as [e|[out|]].
    + right. intros h Hl. rewrite (Hsteps h Hl). py_unfold. eauto.
    + destruct (join df out (NlpAnalyzer._join_by a)) as [e|res].
      * right. intros h Hl. rewrite (Hsteps h Hl). py_unfold. eauto.
      * left. exists out, res. intros h Hl. by rewrite (Hsteps h Hl).
    + right. intros h Hl. rewrite (Hsteps h Hl). py_unfold. eauto.
  - right. intros h Hl. rewrite (Hsteps h Hl). py_unfold. eauto.
Qed.

(** The loop of [analyze_dataframe] over analyzers that each return on every
    store holding the table: the dictionary gains one entry per name, each
    referring to the table that analyzer's [apply] returns. *)
Lemma analyze_loop_entries WC l df (analyzers : list (string * NlpAnalyzer.t)) :
  NoDup analyzers.*1 →
  (∀ name a, (name, a) ∈ analyzers →
     ∃ out res, ∀ h, h !! l = Some df →
       NlpAnalyzer.apply WC a l h = (h ++ [out; res], Ok (S (length h)))) →
  ∀ (h : heap) (acc : gmap string loc),
    h !! l = Some df →
    (∀ name, name ∈ analyzers.*1 → acc !! name = None) →
    ∃ h' results,
      NlpAnalyzationPipeline.analyze_loop WC analyzers l acc h = (h', Ok results)
      ∧ h' !! l = Some df
      ∧ (∀ i d, h !! i = Some d → h' !! i = Some d)
      ∧ dom results = dom acc ∪ list_to_set analyzers.*1
      ∧ (∀ k v, acc !! k = Some v → results !! k = Some v)
      ∧ (∀ name a, (name, a) ∈ analyzers →
           ∃ lr res, results !! name = Some lr ∧ h' !! lr = Some res
             ∧ ∀ h0, h0 !! l = Some df →
                 returned_table (NlpAnalyzer.apply WC a l h0) = Some res).
Proof.
  induction analyzers as [|[name a] rest IH]; intros Hnd Hret h acc Hl Hfresh.
  - exists h, acc. simpl. split_and!; try done.
    + set_solver.
    + by intros name a ?%elem_of_nil.
  - apply NoDup_cons in Hnd as [Hname Hnd].
    destruct (Hret name a) as (out & res & Happly); [left|].
    assert (Hl' : (h ++ [out; res]) !! l = Some df).
    { rewrite lookup_app_l; [done | by eapply lookup_lt_Some]. }
    assert (Hret' : ∀ name' a', (name', a') ∈ rest →
              ∃ out res, ∀ h, h !! l = Some df →
                NlpAnalyzer.apply WC a' l h = (h ++ [out; res], Ok (S (length h)))).
    { intros name' a' Hin. apply (Hret name'). by right. }
    assert (Hfresh' : ∀ name', name' ∈ rest.*1 →
              (<[name := S (length h)]> acc : gmap string nat) !! name' = None).
    { intros name' Hin. rewrite lookup_insert_ne; [|by intros ->].
      apply Hfresh. by right. }
    destruct (IH Hnd Hret' (h ++ [out; res]) (<[name := S (length h)]> acc) Hl' Hfresh')
      as (h' & results & Hrun & Hl'' & Hkeep & Hdom & Hacc & Hentries).
    exists h', results. split_and!.
      * cbn [NlpAnalyzationPipeline.analyze_loop]. unfold bind at 1.
        by rewrite (Happly h Hl).
      * done.
      * intros i d Hi. apply Hkeep. rewrite lookup_app_l; [done | by eapply lookup_lt_Some].
      * rewrite Hdom, dom_insert_L. cbn [fmap list_fmap fst list_to_set]. set_solver.
      * intros k v Hk. apply Hacc. rewrite lookup_insert_ne; [done|].
        intros <-. rewrite Hfresh in Hk; [done | left].
      * intros name' a' [[= -> ->]|Hin]%elem_of_cons.
        -- exists (S (length h)), res. split_and!.
           ++ apply Hacc. apply lookup_insert_eq.
           ++ apply Hkeep. rewrite lookup_app_r by lia.
              by replace (S (length h) - length h) with 1 by lia.
           ++ intros h0 Hh0. rewrite (Happly h0 Hh0). simpl.
              rewrite lookup_app_r by lia.
              by replace (S (length h0) - length h0) with 1 by lia.
        -- by apply Hentries.
Qed.

(** C4, as the code has it.  For a pipeline whose names are pairwise
    distinct and whose analyzers are functions of the table that each return
    from [apply] on it, [analyze_dataframe] returns a dictionary with one
    entry per pair, keyed by the names, and the entry of a name refers to the
    table that its analyzer's [apply] returns on the original store: every
    analyzer has seen the input table as it was given.  The input table is
    left as it was. *)
Theorem analyze_dataframe_entries (WC : list string) (p : NlpAnalyzationPipeline.t)
    (l : loc) (h : heap) (df : DataFrame) :
  h !! l = Some df →
  NoDup (NlpAnalyzationPipeline._analyzers p).*1 →
  (∀ name a, (name, a) ∈ NlpAnalyzationPipeline._analyzers p →
     (∃ f, stateless a f) ∧ is_Some (returned_table (NlpAnalyzer.apply WC a l h))) →
  ∃ (h' : heap) (results : gmap string loc),
    NlpAnalyzationPipeline.analyze_dataframe WC p l h = (h', Ok results)
    ∧ size results = length (NlpAnalyzationPipeline._analyzers p)
    ∧ dom results = list_to_set (NlpAnalyzationPipeline._analyzers p).*1
    ∧ h' !! l = Some df
    ∧ ∀ name a, (name, a) ∈ NlpAnalyzationPipeline._analyzers p →
        ∃ lr res, results !! name = Some lr
          ∧ h' !! lr = Some res
          ∧ returned_table (NlpAnalyzer.apply WC a l h) = Some res.
Proof.
  intros Hl Hnd Hall.
  destruct (analyze_loop_entries WC l df (NlpAnalyzationPipeline._analyzers p) Hnd)
    with (h := h) (acc := (∅ : gmap string loc))
    as (h' & results & Hrun & Hl' & _ & Hdom & _ & Hentries).
  - intros name a Hin. destruct (Hall name a Hin) as [[f Hf] [res Hres]].
    destruct (apply_stateless WC a f l df Hf) as [Hok|Hfail]; [done|].
    destruct (Hfail h Hl) as (h1 & e & Hraise). by rewrite Hraise in Hres.
  - done.
  - done.
  - exists h', results. split_and!.
    + done.
    + rewrite <- size_dom, Hdom, dom_empty_L, (left_id_L ∅ (∪)).
      rewrite size_list_to_set by done. by rewrite length_fmap.
    + rewrite Hdom, dom_empty_L. by rewrite (left_id_L ∅ (∪)).
    + done.
    + intros name a Hin. destruct (Hentries name a Hin) as (lr & res & ? & ? & Hsame).
      exists lr, res. split_and!; try done. by apply Hsame.
Qed.

(** C7.  [analyze] is [analyze_dataframe] on the table built from what
    [get_data] returns, and [df_to_featurization_job] is
    [source_to_featurization_job] on the mock source made of the table, with
    the same keyword arguments; an exception of [get_data], of the table
    constructor or of the mock source is passed on. *)
Theorem pipeline_entry_points_delegate (WC : list string)
    (DataSource records kwval FeaturizationJob : Type)
    (get_data : DataSource → M records)
    (pd_DataFrame : records → M loc)
    (MockDfDataSource : loc → M DataSource)
    (FeaturizationJob_init :
       DataSource → gmap string NlpAnalyzer.t → gmap string kwval → M FeaturizationJob)
    (p : NlpAnalyzationPipeline.t) :
  (∀ source h,
     NlpAnalyzationPipeline.analyze WC DataSource records get_data pd_DataFrame p source h =
       match get_data source h with
       | (h1, Ok data) =>
           match pd_DataFrame data h1 with
           | (h2, Ok df) => NlpAnalyzationPipeline.analyze_dataframe WC p df h2
           | (h2, Raise e) => (h2, Raise e)
           end
       | (h1, Raise e) => (h1, Raise e)
       end)
  ∧ (∀ df kwargs h,
       NlpAnalyzationPipeline.df_to_featurization_job
         DataSource kwval FeaturizationJob MockDfDataSource FeaturizationJob_init p df kwargs h =
         match MockDfDataSource df h with
         | (h1, Ok source) =>
             NlpAnalyzationPipeline.source_to_featurization_job
               DataSource kwval FeaturizationJob FeaturizationJob_init p source kwargs h1
         | (h1, Raise e) => (h1, Raise e)
         end).
Proof.
  split.
  - intros source h. unfold NlpAnalyzationPipeline.analyze, bind.
    destruct (get_data source h) as [h1 [data|e]]; [|done].
    by destruct (pd_DataFrame data h1) as [h2 [df|e]].
  - intros df kwargs h. unfold NlpAnalyzationPipeline.df_to_featurization_job, bind.
    by destruct (MockDfDataSource df h) as [h1 [source|e]].
Qed.

(** ** The claims on sample data *)

Lemma two_words_valid : Forall (λ c, c ∈ column_names two_words) coordinates.
Proof. compute_done. Qed.


(** C1 does not hold of [run]: on a table without the required column [X]
    the validation error is raised, and the table is no longer the one that
    was passed in. *)
Lemma run_writes_before_validation_error :
  "X" ∈ NlpAlgorithm._required_columns x_algorithm
  ∧ ("X" ∉ column_names two_words)
  ∧ (NlpAlgorithm.run coordinates x_algorithm 0 [two_words]).2 = Raise ValidationError
  ∧ (NlpAlgorithm.run coordinates x_algorithm 0 [two_words]).1 !! 0 ≠ Some two_words.
Proof.
  split_and!.
  - compute_done.
  - compute_done.
  - reflexivity.
  - vm_compute. discriminate.
Qed.

Lemma missing_column_fails_before_inner_step_witness :
  [two_words] !! 0 = Some two_words
  ∧ ("X" ∉ column_names two_words)
  ∧ NlpAnalyzer.analyze coordinates (NlpAnalyzer.new ["word_id"] ["X"]) 0 [two_words]
    = ([two_words], Raise ValidationError)
  ∧ NlpAnalyzer.apply coordinates (NlpAnalyzer.new ["word_id"] ["X"]) 0 [two_words]
    = ([two_words], Raise ValidationError)
  ∧ NlpAlgorithm.run coordinates x_algorithm 0 [two_words]
    = ([checked two_words], Raise ValidationError).
Proof.
  assert (Hl : [two_words] !! 0 = Some two_words) by reflexivity.
  assert (Hx : "X" ∉ column_names two_words) by compute_done.
  destruct (missing_column_fails_before_inner_step coordinates 0 [two_words] two_words "X" Hl Hx)
    as [Ha Hg].
  destruct (Ha (NlpAnalyzer.new ["word_id"] ["X"])) as [Hanalyze Happly]; [compute_done|].
  refine (conj Hl (conj Hx (conj Hanalyze (conj Happly _)))).
  apply (Hg x_algorithm); [compute_done | discriminate].
Defined.

Lemma put_check_requested_marks_witness :
  assoc "check_requested"
    (columns ((NlpAlgorithm.put_check_requested 0 (Some {[VInt 2]}) [two_words]).1 !!! 0))
  = Some [VBool false; VBool false]
  ∧ assoc "check_requested"
      (columns ((NlpAlgorithm.put_check_requested 0 None [two_words]).1 !!! 0))
    = Some [VBool true; VBool true]
  ∧ (NlpAlgorithm.put_check_requested 0 (Some {[VInt 2]}) [two_words]).2 = Ok 0
  ∧ (NlpAlgorithm.put_check_requested 0 None [two_words]).2 = Ok 0.
Proof.
  assert (Hl : [two_words] !! 0 = Some two_words) by reflexivity.
  destruct (put_check_requested_marks [two_words] 0 two_words (Some {[VInt 2]}) [VInt 1; VInt 1] Hl)
    as (h1 & df1 & flags1 & Hrun1 & -> & _ & _ & _ & Hcol1 & Hlen1 & Hflags1);
    [intros _; reflexivity|].
  destruct (put_check_requested_marks [two_words] 0 two_words None [] Hl)
    as (h2 & df2 & flags2 & Hrun2 & -> & _ & _ & _ & Hcol2 & ->);
    [intros Hne; by destruct Hne|].
  rewrite Hrun1, Hrun2. cbn [fst snd].
  refine (conj _ (conj _ (conj eq_refl eq_refl))).
  - change ((<[0:=df1]> [two_words]) !!! 0) with df1. rewrite Hcol1.
    destruct flags1 as [|b0 [|b1 [|b2 flags1]]]; try discriminate Hlen1.
    assert (Hno : ∀ i b, [b0; b1] !! i = Some b → b = false).
    { intros i b Hb. destruct b; [|done]. exfalso.
      destruct (proj1 (Hflags1 i true Hb) eq_refl) as (v & Hv & s & Hin & Heq).
      apply elem_of_singleton in Hin as ->.
      destruct i as [|[|i]]; simpl in Hv; try discriminate;
        injection Hv as <-; discriminate Heq. }
    by rewrite (Hno 0 b0 eq_refl), (Hno 1 b1 eq_refl).
  - change ((<[0:=df2]> [two_words]) !!! 0) with df2. by rewrite Hcol2.
Defined.

Lemma run_composes_in_order_witness :
  [two_words] !! 0 = Some two_words
  ∧ NlpAlgorithm.run coordinates ok_algorithm 0 [two_words]
    = NlpAlgorithm._run_inner ok_algorithm 0 [checked two_words].
Proof.
  assert (Hl : [two_words] !! 0 = Some two_words) by reflexivity.
  split; [done|].
  destruct (run_composes_in_order coordinates ok_algorithm 0 [two_words] two_words Hl)
    as (h1 & _ & -> & _ & _ & _ & Hrun).
  apply Hrun. reflexivity.
Defined.

Lemma not_overridden_raises_not_implemented_witness :
  NlpAnalyzer.analyze coordinates (NlpAnalyzer.new ["word_id"] []) 0 [two_words]
    = ([two_words], Raise NotImplementedError)
  ∧ NlpAnalyzer.apply coordinates (NlpAnalyzer.new ["word_id"] []) 0 [two_words]
    = ([two_words], Raise NotImplementedError)
  ∧ NlpAlgorithm.run coordinates (NlpAlgorithm.new "status" None []) 0 [two_words]
    = ([checked two_words], Raise NotImplementedError).
Proof.
  assert (Hl : [two_words] !! 0 = Some two_words) by reflexivity.
  destruct (not_overridden_raises_not_implemented coordinates 0 [two_words] two_words Hl)
    as [Ha Hg].
  destruct (Ha (NlpAnalyzer.new ["word_id"] [])) as [Hanalyze Happly];
    [reflexivity | compute_done |].
  refine (conj Hanalyze (conj Happly _)).
  apply (Hg (NlpAlgorithm.new "status" None [])); [reflexivity | compute_done].
Defined.

Lemma pymorph_analyze_returns_none_witness :
  Forall (λ c, c ∈ column_names two_words) coordinates
  ∧ NlpAnalyzer.analyze coordinates PyMorphAnalyzer 0 [two_words] = ([two_words], Ok PyNone).
Proof.
  split; [compute_done|].
  apply (pymorph_analyze_returns_none coordinates 0 [two_words] two_words);
    [reflexivity | compute_done].
Defined.

Lemma run_on_text_ignores_paragraphs_to_check_witness :
  NlpAlgorithm.run_on_text coordinates sample_separate ok_algorithm ["text"] (Some {[VInt 2]}) []
  = (let (h2, r) := NlpAlgorithm._run_inner ok_algorithm 0 [checked two_words] in
     match r with Ok _ => (h2, Ok 0) | Raise e => (h2, Raise e) end)
  ∧ NlpAlgorithm.run_on_string coordinates sample_separate ok_algorithm "text" (Some {[VInt 2]}) []
    = (let (h2, r) := NlpAlgorithm._run_inner ok_algorithm 0 [checked two_words] in
       match r with Ok _ => (h2, Ok 0) | Raise e => (h2, Raise e) end).
Proof.
  destruct (run_on_text_ignores_paragraphs_to_check coordinates
              sample_separate sample_separate ok_algorithm {[VInt 2]})
    as (_ & _ & Htext & Hstring).
  split.
  - apply (Htext ["text"] [] [two_words] 0 two_words); [reflexivity | reflexivity | compute_done].
  - apply (Hstring "text" [] [two_words] 0 two_words); [reflexivity | reflexivity | compute_done].
Defined.



Lemma apply_leaves_input_unchanged_witness :
  (NlpAnalyzer.apply coordinates x_analyzer 0 [two_words]).1 !! 0 = Some two_words
  ∧ ∀ h' l', NlpAnalyzer.apply coordinates x_analyzer 0 [two_words] = (h', Ok l') →
      ∃ h1 lo res,
        NlpAnalyzer._analyze_inner x_analyzer 0 [two_words] = (h1, Ok (PyDataFrame lo))
        ∧ h' = h1 ++ [res]
        ∧ l' = length h1
        ∧ l' ≠ 0
        ∧ h' !! l' = Some res
        ∧ column_names res = column_names two_words ++ column_names (h1 !!! lo).
Proof.
  apply (apply_leaves_input_unchanged coordinates x_analyzer 0 [two_words] two_words).
  - reflexivity.
  - reflexivity.
Defined.

(** C4 does not hold of every pipeline: two pairs under one name leave one
    entry, and a pipeline with [PyMorphAnalyzer] returns no dictionary. *)
Lemma analyze_dataframe_not_always_n_entries :
  (∃ h' results,
     NlpAnalyzationPipeline.analyze_dataframe coordinates
       (NlpAnalyzationPipeline.mk [("a", x_analyzer); ("a", twice_analyzer)]) 0 [two_words]
     = (h', Ok results)
     ∧ size results = 1)
  ∧ (∃ e, (NlpAnalyzationPipeline.analyze_dataframe coordinates
             (NlpAnalyzationPipeline.mk [("m", PyMorphAnalyzer)]) 0 [two_words]).2
          = Raise e).
Proof.
  split.
  - eexists _, _. split; [reflexivity|]. by vm_compute.
  - by eexists.
Qed.

Lemma analyze_dataframe_entries_witness :
  let p := NlpAnalyzationPipeline.mk [("x", x_analyzer); ("y", twice_analyzer)] in
  ∃ (h' : heap) (results : gmap string loc),
    NlpAnalyzationPipeline.analyze_dataframe coordinates p 0 [two_words] = (h', Ok results)
    ∧ size results = 2
    ∧ dom results = list_to_set ["x"; "y"]
    ∧ h' !! 0 = Some two_words
    ∧ ∀ name a, (name, a) ∈ NlpAnalyzationPipeline._analyzers p →
        ∃ lr res, results !! name = Some lr
          ∧ h' !! lr = Some res
          ∧ returned_table (NlpAnalyzer.apply coordinates a 0 [two_words]) = Some res.
Proof.
  intros p.
  apply (analyze_dataframe_entries coordinates p 0 [two_words] two_words).
  - reflexivity.
  - compute_done.
  - intros name a Hin.
    apply elem_of_cons in Hin as [[= -> ->]|Hin];
      [|apply elem_of_cons in Hin as [[= -> ->]|Hin]; [|by apply elem_of_nil in Hin]].
    + split; [eexists; intros l h; reflexivity | compute_done].
    + split; [eexists; intros l h; reflexivity | compute_done].
Defined.

(** ** More on put_check_requested and run *)

Lemma assign_assign c vs1 vs2 cols : assign c vs2 (assign c vs1 cols) = assign c vs2 cols.
Proof.
  induction cols as [|[c' vs'] cols IH]; simpl.
  - by rewrite decide_True.
  - destruct (decide (c = c')) as [->|Hne]; simpl.
    + by rewrite decide_True.
    + rewrite decide_False by done. by rewrite IH.
Qed.

Lemma assign_names c vs (cols : list (string * list value)) :
  (assign c vs cols).*1 = if decide (c ∈ cols.*1) then cols.*1 else cols.*1 ++ [c].
Proof.
  induction cols as [|[c' vs'] cols IH]; cbn [assign].
  - destruct (decide (c ∈ ([] : list (string * list value)).*1)) as [Hin|_]; [|done].
    by apply elem_of_nil in Hin.
  - destruct (decide (c = c')) as [->|Hne]; cbn [fmap list_fmap fst].
    + rewrite decide_True; [done | left].
    + rewrite IH. destruct (decide (c ∈ cols.*1)) as [Hin|Hout].
      * rewrite decide_True; [done | by right].
      * rewrite decide_False; [done|]. by intros [?|?]%elem_of_cons.
Qed.

Lemma assign_Forall (P : string * list value → Prop) c vs cols :
  P (c, vs) → Forall P cols → Forall P (assign c vs cols).
Proof.
  intros Hc Hall. induction Hall as [|[c' vs'] cols Hhd Htl IH]; simpl.
  - by constructor.
  - destruct (decide (c = c')); by constructor.
Qed.

Lemma set_column_well_formed c vs df :
  well_formed df → length vs = row_count df → well_formed (set_column c vs df).
Proof.
  intros (Hcols & Hidx & Hnames) Hlen. split_and!.
  - by apply assign_Forall.
  - done.
  - unfold column_names, set_column; cbn [columns]. rewrite assign_names.
    case_decide as Hin; [done|]. apply NoDup_app. split_and!; [done | | apply NoDup_singleton].
    intros c' Hc' ->%list_elem_of_singleton. by apply Hin.
Qed.

Lemma put_check_requested_Some h l df ps ids :
  h !! l = Some df →
  assoc "paragraph_id" (columns df) = Some ids →
  NlpAlgorithm.put_check_requested l (Some ps) h
  = (<[l := set_column "check_requested" (isin ps ids) df]> h, Ok l).
Proof.
  intros Hl Hids. unfold NlpAlgorithm.put_check_requested.
  py_run with Hl. rewrite Hids. by py_run with Hl.
Qed.

(** What a call writes into the column. *)
Lemma put_check_requested_writes h l df pc :
  h !! l = Some df →
  is_Some (assoc "paragraph_id" (columns df)) →
  ∃ vs, NlpAlgorithm.put_check_requested l pc h
        = (<[l := set_column "check_requested" vs df]> h, Ok l)
      ∧ (∀ h' df' ws, h' !! l = Some (set_column "check_requested" ws df') →
           columns df' = columns df → row_count df' = row_count df →
           NlpAlgorithm.put_check_requested l pc h'
           = (<[l := set_column "check_requested" vs df']> h', Ok l)).
Proof.
  intros Hl [ids Hids]. destruct pc as [ps|].
  - exists (isin ps ids). split; [by apply put_check_requested_Some|].
    intros h' df' ws Hl' Hcols Hrows.
    rewrite (put_check_requested_Some h' l _ ps ids Hl').
    + unfold set_column; cbn [nlevels index columns]. by rewrite assign_assign.
    + cbn [set_column columns]. rewrite assoc_assign_ne by done. by rewrite Hcols.
  - exists (broadcast df (VBool true)). split; [by apply put_check_requested_None|].
    intros h' df' ws Hl' Hcols Hrows.
    rewrite (put_check_requested_None h' l _ Hl').
    unfold checked, broadcast, set_column, row_count in *; cbn [nlevels index columns] in *.
    by rewrite assign_assign, Hrows.
Qed.

(** Two calls in a row are the second call alone. *)
Lemma put_check_requested_twice h l df pc1 pc2 :
  h !! l = Some df →
  is_Some (assoc "paragraph_id" (columns df)) →
  (NlpAlgorithm.put_check_requested l pc1 ;;; NlpAlgorithm.put_check_requested l pc2) h
  = NlpAlgorithm.put_check_requested l pc2 h.
Proof.
  intros Hl Hids.
  destruct (put_check_requested_writes h l df pc1 Hl Hids) as (vs1 & Hrun1 & _).
  destruct (put_check_requested_writes h l df pc2 Hl Hids) as (vs2 & Hrun2 & Hagain).
  unfold bind. rewrite Hrun1, Hrun2.
  rewrite (Hagain (<[l := set_column "check_requested" vs1 df]> h) df vs1); try done.
  - by rewrite list_insert_insert_eq.
  - by apply (lookup_written h l df).
Qed.

(** X1.  With a set of paragraphs and a table that has no [paragraph_id]
    column, [put_check_requested] raises [AttributeError] and writes
    nothing. *)
Theorem put_check_requested_needs_paragraph_id (h : heap) (l : loc) (df : DataFrame)
    (ps : gset value) :
  h !! l = Some df →
  assoc "paragraph_id" (columns df) = None →
  NlpAlgorithm.put_check_requested l (Some ps) h = (h, Raise AttributeError).
Proof.
  intros Hl Hnone. unfold NlpAlgorithm.put_check_requested.
  py_run with Hl. rewrite Hnone. by py_unfold.
Qed.

Lemma put_check_requested_needs_paragraph_id_witness :
  assoc "paragraph_id" (columns no_paragraphs) = None
  ∧ NlpAlgorithm.put_check_requested 0 (Some {[VInt 1]}) [no_paragraphs]
    = ([no_paragraphs], Raise AttributeError).
Proof.
  split; [reflexivity|].
  apply (put_check_requested_needs_paragraph_id [no_paragraphs] 0 no_paragraphs {[VInt 1]});
    reflexivity.
Defined.

(** X2.  [put_check_requested] keeps a well-formed table well-formed: the
    rows and the index stay, the new column has one cell per row, and the
    column names stay distinct.  A table that already has [check_requested]
    keeps its column names in their order; otherwise [check_requested]
    becomes the last column. *)
Theorem put_check_requested_keeps_well_formed (h : heap) (l : loc) (df : DataFrame)
    (pc : option (gset value)) :
  h !! l = Some df →
  well_formed df →
  (pc ≠ None → is_Some (assoc "paragraph_id" (columns df))) →
  ∃ df', NlpAlgorithm.put_check_requested l pc h = (<[l := df']> h, Ok l)
    ∧ well_formed df'
    ∧ row_count df' = row_count df
    ∧ index df' = index df
    ∧ column_names df'
      = if decide ("check_requested" ∈ column_names df)
        then column_names df
        else column_names df ++ ["check_requested"].
Proof.
  intros Hl Hwf Hpid. destruct pc as [ps|].
  - destruct (Hpid ltac:(done)) as [ids Hids].
    exists (set_column "check_requested" (isin ps ids) df). split_and!.
    + by apply put_check_requested_Some.
    + apply set_column_well_formed; [done|].
      unfold isin. rewrite length_fmap.
      destruct Hwf as (Hcols & _ & _). rewrite Forall_forall in Hcols.
      apply (Hcols ("paragraph_id", ids)). by apply assoc_Some_elem.
    + done.
    + done.
    + unfold column_names, set_column; cbn [columns]. apply assign_names.
  - exists (checked df). split_and!.
    + by apply put_check_requested_None.
    + apply set_column_well_formed; [done|]. unfold broadcast. apply length_replicate.
    + done.
    + done.
    + unfold column_names, checked, set_column; cbn [columns]. apply assign_names.
Qed.

Lemma put_check_requested_keeps_well_formed_witness :
  well_formed two_words
  ∧ ∃ df', NlpAlgorithm.put_check_requested 0 (Some {[VInt 1]}) [two_words]
           = (<[0 := df']> [two_words], Ok 0)
      ∧ well_formed df'
      ∧ row_count df' = row_count two_words
      ∧ index df' = index two_words
      ∧ column_names df'
        = if decide ("check_requested" ∈ column_names two_words)
          then column_names two_words
          else column_names two_words ++ ["check_requested"].
Proof.
  split; [compute_done|].
  apply (put_check_requested_keeps_well_formed [two_words] 0 two_words (Some {[VInt 1]})).
  - reflexivity.
  - compute_done.
  - intros _. compute_done.
Defined.

(** X3.  On a table with a [paragraph_id] column a second call replaces what
    the first one wrote: two calls in a row leave the store and return what
    the second call alone does, so a call is idempotent and the last request
    wins. *)
Theorem put_check_requested_last_call_wins (h : heap) (l : loc) (df : DataFrame)
    (pc1 pc2 : option (gset value)) :
  h !! l = Some df →
  is_Some (assoc "paragraph_id" (columns df)) →
  (NlpAlgorithm.put_check_requested l pc1 ;;; NlpAlgorithm.put_check_requested l pc2) h
  = NlpAlgorithm.put_check_requested l pc2 h.
Proof.
  intros Hl Hids.
  destruct (put_check_requested_writes h l df pc1 Hl Hids) as (vs1 & Hrun1 & _).
  destruct (put_check_requested_writes h l df pc2 Hl Hids) as (vs2 & Hrun2 & Hagain).
  unfold bind. rewrite Hrun1, Hrun2.
  rewrite (Hagain (<[l := set_column "check_requested" vs1 df]> h) df vs1); try done.
  - by rewrite list_insert_insert_eq.
  - by apply (lookup_written h l df).
Qed.

Lemma put_check_requested_last_call_wins_witness :
  is_Some (assoc "paragraph_id" (columns two_words))
  ∧ (NlpAlgorithm.put_check_requested 0 None
     ;;; NlpAlgorithm.put_check_requested 0 (Some {[VInt 2]})) [two_words]
    = NlpAlgorithm.put_check_requested 0 (Some {[VInt 2]}) [two_words].
Proof.
  split; [compute_done|].
  apply (put_check_requested_last_call_wins [two_words] 0 two_words None (Some {[VInt 2]}));
    [reflexivity | compute_done].
Defined.

(** X4.  A request made with [put_check_requested] before [run] is lost:
    [run] marks every row again, so marking some paragraphs and then running
    is the same as running. *)
Theorem run_discards_earlier_request (WC : list string) (g : NlpAlgorithm.t)
    (h : heap) (l : loc) (df : DataFrame) (ps : gset value) :
  h !! l = Some df →
  is_Some (assoc "paragraph_id" (columns df)) →
  (NlpAlgorithm.put_check_requested l (Some ps) ;;; NlpAlgorithm.run WC g l) h
  = NlpAlgorithm.run WC g l h.
Proof.
  intros Hl Hids.
  pose proof (put_check_requested_twice h l df (Some ps) None Hl Hids) as Htwice.
  unfold NlpAlgorithm.run. unfold bind in Htwice |- *.
  destruct (NlpAlgorithm.put_check_requested l (Some ps) h) as [h1 [l1|e1]].
  - by rewrite Htwice.
  - by rewrite <- Htwice.
Qed.

Lemma run_discards_earlier_request_witness :
  is_Some (assoc "paragraph_id" (columns two_words))
  ∧ (NlpAlgorithm.put_check_requested 0 (Some {[VInt 2]})
     ;;; NlpAlgorithm.run coordinates ok_algorithm 0) [two_words]
    = NlpAlgorithm.run coordinates ok_algorithm 0 [two_words].
Proof.
  split; [compute_done|].
  apply (run_discards_earlier_request coordinates ok_algorithm [two_words] 0 two_words {[VInt 2]});
    [reflexivity | compute_done].
Defined.

(** X5.  What [run] asks of the table it is given: the word coordinates and
    the declared required columns, except [check_requested], which [run]
    supplies itself.  With all of them the run is the inner step on the
    marked table; with one missing it is the validation error. *)
Theorem run_validates_all_but_check_requested (WC : list string) (g : NlpAlgorithm.t)
    (l : loc) (h : heap) (df : DataFrame) :
  h !! l = Some df →
  (Forall (λ c, c = "check_requested" ∨ c ∈ column_names df)
          (WC ++ NlpAlgorithm._required_columns g) →
   NlpAlgorithm.run WC g l h = NlpAlgorithm._run_inner g l (<[l := checked df]> h))
  ∧ (¬ Forall (λ c, c = "check_requested" ∨ c ∈ column_names df)
              (WC ++ NlpAlgorithm._required_columns g) →
     NlpAlgorithm.run WC g l h = (<[l := checked df]> h, Raise ValidationError)).
Proof.
  intros Hl. rewrite (run_steps WC g l h df Hl).
  assert (Hiff : Forall (λ c, c ∈ column_names (checked df))
                   (WC ++ ["check_requested"] ++ NlpAlgorithm._required_columns g)
                 ↔ Forall (λ c, c = "check_requested" ∨ c ∈ column_names df)
                     (WC ++ NlpAlgorithm._required_columns g)).
  { rewrite !Forall_app, Forall_singleton.
    setoid_rewrite column_names_checked. naive_solver. }
  unfold validations.ensure_df_contains. split; intros Hall.
  - rewrite decide_True; [done | by apply Hiff].
  - rewrite decide_False; [done|]. intros Hall'. by apply Hall, Hiff.
Qed.

Lemma run_validates_all_but_check_requested_witness :
  NlpAlgorithm.run coordinates (NlpAlgorithm.new "status" None ["check_requested"]) 0 [two_words]
  = ([checked two_words], Raise NotImplementedError)
  ∧ NlpAlgorithm.run coordinates x_algorithm 0 [two_words]
    = ([checked two_words], Raise ValidationError).
Proof.
  split.
  - apply (run_validates_all_but_check_requested coordinates
             (NlpAlgorithm.new "status" None ["check_requested"]) 0 [two_words] two_words);
      [reflexivity | compute_done].
  - apply (run_validates_all_but_check_requested coordinates x_algorithm 0 [two_words] two_words);
      [reflexivity | compute_done].
Defined.

Lemma isin_constant ps ids b :
  (∀ v, v ∈ ids → isin_cell ps v = b) → isin ps ids = replicate (length ids) (VBool b).
Proof.
  intros Hall. unfold isin. induction ids as [|v ids IH]; [done|].
  cbn [fmap list_fmap length replicate]. f_equal.
  - f_equal. apply Hall. left.
  - apply IH. intros v' Hv'. apply Hall. by right.
Qed.

(** X6.  On a well-formed table whose paragraph ids are all integers of the
    set, a call with the set does what a call without a set does. *)
Theorem put_check_requested_full_set (h : heap) (l : loc) (df : DataFrame)
    (ps : gset value) (ids : list value) :
  h !! l = Some df →
  well_formed df →
  assoc "paragraph_id" (columns df) = Some ids →
  (∀ v, v ∈ ids → ∃ z, v = VInt z ∧ VInt z ∈ ps) →
  NlpAlgorithm.put_check_requested l (Some ps) h
  = NlpAlgorithm.put_check_requested l None h.
Proof.
  intros Hl (Hcols & _ & _) Hids Hall.
  rewrite (put_check_requested_Some h l df ps ids Hl Hids).
  rewrite (put_check_requested_None h l df Hl).
  rewrite (isin_constant ps ids true).
  - rewrite Forall_forall in Hcols.
    assert (Hlen : length ids = row_count df).
    { apply (Hcols ("paragraph_id", ids)). by apply assoc_Some_elem. }
    unfold checked, broadcast. by rewrite Hlen.
  - intros v Hv. apply isin_cell_true. destruct (Hall v Hv) as (z & -> & Hz).
    exists (VInt z). split; [done|]. unfold py_eq; cbn [number]. apply Z.eqb_refl.
Qed.

Lemma put_check_requested_full_set_witness :
  NlpAlgorithm.put_check_requested 0 (Some {[VInt 1; VInt 5]}) [two_words]
  = NlpAlgorithm.put_check_requested 0 None [two_words].
Proof.
  apply (put_check_requested_full_set [two_words] 0 two_words {[VInt 1; VInt 5]} [VInt 1; VInt 1]).
  - reflexivity.
  - compute_done.
  - reflexivity.
  - intros v Hv. exists 1%Z.
    apply elem_of_cons in Hv as [->|Hv]; [|apply elem_of_cons in Hv as [->|Hv]].
    + split; [done | compute_done].
    + split; [done | compute_done].
    + by apply elem_of_nil in Hv.
Defined.

(** X7.  When no paragraph id of the table equals an element of the set, as
    with the empty set, every row is marked false. *)
Theorem put_check_requested_disjoint_set (h : heap) (l : loc) (df : DataFrame)
    (ps : gset value) (ids : list value) :
  h !! l = Some df →
  assoc "paragraph_id" (columns df) = Some ids →
  (∀ v s, v ∈ ids → s ∈ ps → py_eq v s = false) →
  NlpAlgorithm.put_check_requested l (Some ps) h
  = (<[l := set_column "check_requested" (replicate (length ids) (VBool false)) df]> h, Ok l).
Proof.
  intros Hl Hids Hnone.
  rewrite (put_check_requested_Some h l df ps ids Hl Hids).
  rewrite (isin_constant ps ids false); [done|].
  intros v Hv. apply not_true_is_false. rewrite isin_cell_true.
  intros (s & Hs & Heq). by rewrite (Hnone v s Hv Hs) in Heq.
Qed.

Lemma put_check_requested_disjoint_set_witness :
  NlpAlgorithm.put_check_requested 0 (Some {[VInt 2; VBool false]}) [two_words]
  = ([set_column "check_requested" [VBool false; VBool false] two_words], Ok 0).
Proof.
  apply (put_check_requested_disjoint_set [two_words] 0 two_words
           {[VInt 2; VBool false]} [VInt 1; VInt 1]).
  - reflexivity.
  - reflexivity.
  - intros v s Hv Hs.
    assert (v = VInt 1) as ->.
    { apply elem_of_cons in Hv as [->|Hv]; [done|].
      apply elem_of_cons in Hv as [->|Hv]; [done|]. by apply elem_of_nil in Hv. }
    apply elem_of_union in Hs as [->%elem_of_singleton | ->%elem_of_singleton]; reflexivity.
Defined.

(** X8.  [run_on_text] and [run_on_string] return the very table the
    separator built, or raise: whenever they return a reference it is the one
    the separator returned, and an exception of the separator is passed on
    with the store as the separator left it, the algorithm not having run. *)
Theorem run_on_text_returns_separated_table (WC : list string)
    (separate_paragraphs : list string → M loc) (separate_string : string → M loc)
    (g : NlpAlgorithm.t) (pc : option (gset value)) :
  (∀ text h h' l,
     NlpAlgorithm.run_on_text WC separate_paragraphs g text pc h = (h', Ok l) →
     ∃ h0, separate_paragraphs text h = (h0, Ok l))
  ∧ (∀ text h h0 e,
       separate_paragraphs text h = (h0, Raise e) →
       NlpAlgorithm.run_on_text WC separate_paragraphs g text pc h = (h0, Raise e))
  ∧ (∀ s h h' l,
       NlpAlgorithm.run_on_string WC separate_string g s pc h = (h', Ok l) →
       ∃ h0, separate_string s h = (h0, Ok l))
  ∧ (∀ s h h0 e,
       separate_string s h = (h0, Raise e) →
       NlpAlgorithm.run_on_string WC separate_string g s pc h = (h0, Raise e)).
Proof.
  split_and!.
  - intros text h h' l. unfold NlpAlgorithm.run_on_text, bind, ret.
    destruct (separate_paragraphs text h) as [h0 [l0|e]]; [|done].
    destruct (NlpAlgorithm.run WC g l0 h0) as [h1 [[]|e]]; [|done].
    intros [= <- <-]. by exists h0.
  - intros text h h0 e Hsep. unfold NlpAlgorithm.run_on_text, bind. by rewrite Hsep.
  - intros s h h' l. unfold NlpAlgorithm.run_on_string, bind, ret.
    destruct (separate_string s h) as [h0 [l0|e]]; [|done].
    destruct (NlpAlgorithm.run WC g l0 h0) as [h1 [[]|e]]; [|done].
    intros [= <- <-]. by exists h0.
  - intros s h h0 e Hsep. unfold NlpAlgorithm.run_on_string, bind. by rewrite Hsep.
Qed.

Lemma run_on_text_returns_separated_table_witness :
  ∃ h0, sample_separate ["text"] [] = (h0, Ok 0).
Proof.
  destruct (run_on_text_returns_separated_table coordinates sample_separate sample_separate
              ok_algorithm None) as (Htext & _).
  apply (Htext ["text"] []
           (NlpAlgorithm.run_on_text coordinates sample_separate ok_algorithm ["text"] None []).1).
  reflexivity.
Defined.

(** ** More on apply *)

(** X9.  [PyMorphAnalyzer.apply] never returns a table: on every store and
    every reference it raises, either at the validation or, on a valid
    table, at the join, which is handed [None]; the store is left as it
    was. *)
Theorem pymorph_apply_never_returns (WC : list string) (l : loc) (h : heap) :
  ∃ e, NlpAnalyzer.apply WC PyMorphAnalyzer l h = (h, Raise e).
Proof.
  rewrite apply_steps. unfold NlpAnalyzer.analyze, NlpAnalyzer.validate_input.
  py_unfold.
  destruct (ensure_df_contains_cases
              (WC ++ NlpAnalyzer._required_columns PyMorphAnalyzer) (h !!! l) h) as [-> | ->].
  - exists ValueError. by py_unfold.
  - by exists ValidationError.
Qed.

Lemma length_positions k idx j :
  (∀ k', k' ∈ idx → keys_eq k k' = true ↔ k = k') →
  length (positions k idx j) = length (filter (λ k', k = k') idx).
Proof.
  revert j. induction idx as [|k' idx IH]; intros j Hcmp; [done|].
  cbn [positions]. rewrite filter_cons.
  assert (Hcmp' : ∀ k'', k'' ∈ idx → keys_eq k k'' = true ↔ k = k'').
  { intros k'' Hin. apply Hcmp. by right. }
  destruct (keys_eq k k') eqn:Heq.
  - rewrite decide_True by (apply Hcmp; [left | done]).
    cbn [length]. by rewrite IH.
  - rewrite decide_False; [by rewrite IH|].
    intros Hk. apply Hcmp in Hk; [congruence | left].
Qed.

Lemma length_bind_sum {A B} (f : A → list B) (xs : list A) :
  length (xs ≫= f) = sum_list_with (λ x, length (f x)) xs.
Proof.
  induction xs as [|x xs IH]; [done|].
  rewrite bind_cons, length_app, IH. done.
Qed.

Lemma sum_list_with_ge_length {A} (f : A → nat) (xs : list A) :
  (∀ x, (1 ≤ f x)%nat) → (length xs ≤ sum_list_with f xs)%nat.
Proof.
  intros Hf. induction xs as [|x xs IH]; [done|].
  cbn [length sum_list_with]. specialize (Hf x). lia.
Qed.

Lemma sum_list_with_ext_in {A} (f g : A → nat) (xs : list A) :
  (∀ x, x ∈ xs → f x = g x) → sum_list_with f xs = sum_list_with g xs.
Proof.
  intros Hfg. induction xs as [|x xs IH]; [done|].
  cbn [sum_list_with]. rewrite Hfg by left. rewrite IH; [done|].
  intros y Hy. apply Hfg. by right.
Qed.

(** The rows of a join: one per match, and one for a row without a match. *)
Lemma length_join_rows df other on :
  (∀ i k', i < row_count df → k' ∈ index other →
     keys_eq (key_at on df i) k' = true ↔ key_at on df i = k') →
  length (join_rows df other on)
  = sum_list_with
      (λ i, max 1 (length (filter (λ k', key_at on df i = k') (index other))))
      (seq 0 (row_count df)).
Proof.
  intros Hcmp. unfold join_rows. rewrite length_bind_sum.
  apply sum_list_with_ext_in. intros i [_ Hi]%elem_of_seq.
  rewrite <- (length_positions _ _ 0) by (intros k' Hk'; apply Hcmp; [lia | done]).
  destruct (positions (key_at on df i) (index other) 0) as [|j js]; [done|].
  rewrite length_fmap. cbn [length]. lia.
Qed.

Lemma join_row_count df other on res :
  join df other on = inr res → row_count res = length (join_rows df other on).
Proof.
  intros ->%join_inr. unfold row_count; cbn [index]. by rewrite length_fmap.
Qed.

Lemma join_inr_keys df other on res :
  join df other on = inr res → Forall (λ c, c ∈ column_names df) on.
Proof. unfold join. case_decide; [done|]. by case_decide. Qed.

(** X10.  With integer keys, the join of [apply] never drops a row of the
    input and repeats a row once per occurrence of its key in the index of
    the analyzer's output: the result has, for each input row, as many rows
    as its key has occurrences there, and one if it has none. *)
Theorem apply_row_count (WC : list string) (a : NlpAnalyzer.t)
    (l lo l' : loc) (h h1 h' : heap) (df out : DataFrame) :
  h !! l = Some df →
  well_formed df →
  NlpAnalyzer._analyze_inner a l h = (h1, Ok (PyDataFrame lo)) →
  h1 !! l = Some df →
  h1 !! lo = Some out →
  (∀ c vs, c ∈ NlpAnalyzer._join_by a → assoc c (columns df) = Some vs → int_cells vs) →
  Forall int_cells (index out) →
  NlpAnalyzer.apply WC a l h = (h', Ok l') →
  ∃ res, h' !! l' = Some res
    ∧ row_count res
      = sum_list_with
          (λ i, max 1 (length (filter (λ k', key_at (NlpAnalyzer._join_by a) df i = k')
                                      (index out))))
          (seq 0 (row_count df))
    ∧ (row_count df ≤ row_count res)%nat.
Proof.
  intros Hl Hwf Hinner Hl1 Hlo Hkint Hiint.
  rewrite apply_steps, (analyze_steps WC a l h df Hl).
  destruct (ensure_df_contains_cases (WC ++ NlpAnalyzer._required_columns a) df h)
    as [-> | ->]; [|done].
  rewrite Hinner.
  rewrite (list_lookup_total_correct h1 l df Hl1), (list_lookup_total_correct h1 lo out Hlo).
  destruct (join df out (NlpAnalyzer._join_by a)) as [e|res] eqn:Hjoin; [done|].
  intros [= <- <-]. exists res.
  assert (Hcmp : ∀ i k', i < row_count df → k' ∈ index out →
            keys_eq (key_at (NlpAnalyzer._join_by a) df i) k' = true
            ↔ key_at (NlpAnalyzer._join_by a) df i = k').
  { intros i k' Hi Hk'. apply keys_eq_int.
    - apply key_at_int; [done..| |done]. by apply (join_inr_keys _ _ _ _ Hjoin).
    - rewrite Forall_forall in Hiint. by apply Hiint. }
  assert (Hcount : row_count res
                   = sum_list_with
                       (λ i, max 1 (length (filter (λ k', key_at (NlpAnalyzer._join_by a) df i = k')
                                                   (index out))))
                       (seq 0 (row_count df))).
  { rewrite (join_row_count _ _ _ _ Hjoin). by apply length_join_rows. }
  split_and!.
  - rewrite lookup_app_r by lia. by rewrite Nat.sub_diag.
  - done.
  - rewrite Hcount.
    etrans; [|apply sum_list_with_ge_length; intros i; lia].
    by rewrite length_seq.
Qed.

Lemma apply_row_count_witness :
  ∃ h' res,
    NlpAnalyzer.apply coordinates twice_analyzer 0 [two_words] = (h', Ok 2)
    ∧ h' !! 2 = Some res
    ∧ row_count two_words = 2
    ∧ row_count res = 3.
Proof.
  assert (Hkeys : ∀ c vs, c ∈ NlpAnalyzer._join_by twice_analyzer →
            assoc c (columns two_words) = Some vs → int_cells vs).
  { intros c vs ->%list_elem_of_singleton [= <-]. compute_done. }
  destruct (apply_row_count coordinates twice_analyzer 0 1 2
              [two_words] [two_words; twice_table]
              (NlpAnalyzer.apply coordinates twice_analyzer 0 [two_words]).1
              two_words twice_table eq_refl ltac:(compute_done) eq_refl eq_refl eq_refl
              Hkeys ltac:(compute_done) eq_refl)
    as (res & Hres & Hcount & _).
  exists (NlpAnalyzer.apply coordinates twice_analyzer 0 [two_words]).1, res.
  split_and!; [reflexivity | exact Hres | reflexivity |].
  rewrite Hcount. reflexivity.
Defined.

(** X11.  The validation does not look at what the inner step returns: when
    it returns a table with a column name the input already has (its key
    column, say), the join refuses and [apply] raises, with the store as the
    inner step left it. *)
Theorem apply_raises_on_shared_column (WC : list string) (a : NlpAnalyzer.t)
    (l lo : loc) (h h1 : heap) (df out : DataFrame) (c : string) :
  h !! l = Some df →
  Forall (λ c, c ∈ column_names df) (WC ++ NlpAnalyzer._required_columns a) →
  NlpAnalyzer._analyze_inner a l h = (h1, Ok (PyDataFrame lo)) →
  h1 !! l = Some df →
  h1 !! lo = Some out →
  c ∈ column_names out →
  c ∈ column_names df →
  ∃ e, NlpAnalyzer.apply WC a l h = (h1, Raise e).
Proof.
  intros Hl Hvalid Hinner Hl1 Hlo Hout Hdf.
  rewrite apply_steps, (analyze_steps WC a l h df Hl).
  rewrite (ensure_df_contains_ok _ df h Hvalid), Hinner.
  rewrite (list_lookup_total_correct h1 l df Hl1), (list_lookup_total_correct h1 lo out Hlo).
  destruct (join df out (NlpAnalyzer._join_by a)) as [e|res] eqn:Hjoin; [by eexists|].
  exfalso. unfold join in Hjoin. case_decide; [done|]. case_decide; [|done].
  destruct (key_dtypes_clash df out (NlpAnalyzer._join_by a)); [done|].
  case_decide as Hnew; [|done]. rewrite Forall_forall in Hnew. by apply (Hnew c).
Qed.

Lemma apply_raises_on_shared_column_witness :
  ∃ e, NlpAnalyzer.apply coordinates sentence_analyzer 0 [two_words]
       = ([two_words; sentence_table], Raise e).
Proof.
  apply (apply_raises_on_shared_column coordinates sentence_analyzer 0 1
           [two_words] [two_words; sentence_table] two_words sentence_table "sentence_id");
    try reflexivity; compute_done.
Defined.

(** X12.  The validation does not look at the join keys either: a table
    that has the word coordinates and the declared required columns passes
    it even without a join key, the inner step runs, and only then does
    [apply] raise, at the join. *)
Theorem apply_raises_on_missing_join_key (WC : list string) (a : NlpAnalyzer.t)
    (l lo : loc) (h h1 : heap) (df out : DataFrame) (c : string) :
  h !! l = Some df →
  Forall (λ c, c ∈ column_names df) (WC ++ NlpAnalyzer._required_columns a) →
  NlpAnalyzer._analyze_inner a l h = (h1, Ok (PyDataFrame lo)) →
  h1 !! l = Some df →
  h1 !! lo = Some out →
  c ∈ NlpAnalyzer._join_by a →
  c ∉ column_names df →
  NlpAnalyzer.analyze WC a l h = (h1, Ok (PyDataFrame lo))
  ∧ ∃ e, NlpAnalyzer.apply WC a l h = (h1, Raise e).
Proof.
  intros Hl Hvalid Hinner Hl1 Hlo Hkey Hmiss.
  assert (Ha : NlpAnalyzer.analyze WC a l h = (h1, Ok (PyDataFrame lo))).
  { rewrite (analyze_steps WC a l h df Hl).
    by rewrite (ensure_df_contains_ok _ df h Hvalid). }
  split; [done|]. rewrite apply_steps, Ha.
  rewrite (list_lookup_total_correct h1 l df Hl1), (list_lookup_total_correct h1 lo out Hlo).
  destruct (join df out (NlpAnalyzer._join_by a)) as [e|res] eqn:Hjoin; [by eexists|].
  exfalso. apply join_inr_keys in Hjoin. rewrite Forall_forall in Hjoin.
  by apply Hmiss, (Hjoin c).
Qed.

Lemma apply_raises_on_missing_join_key_witness :
  NlpAnalyzer.analyze coordinates token_analyzer 0 [two_words]
  = ([two_words; x_table two_words], Ok (PyDataFrame 1))
  ∧ ∃ e, NlpAnalyzer.apply coordinates token_analyzer 0 [two_words]
         = ([two_words; x_table two_words], Raise e).
Proof.
  apply (apply_raises_on_missing_join_key coordinates token_analyzer 0 1
           [two_words] [two_words; x_table two_words] two_words (x_table two_words) "token_id");
    try reflexivity; compute_done.
Defined.

(** ** More on the pipeline *)

Lemma foldl_insert_lookup_other {A} (pairs : list (string * A)) (acc : gmap string A) k :
  k ∉ pairs.*1 → foldl (λ d p, <[p.1 := p.2]> d) acc pairs !! k = acc !! k.
Proof.
  revert acc. induction pairs as [|[k' v'] pairs IH]; intros acc Hk; [done|].
  cbn [foldl fst snd]. apply not_elem_of_cons in Hk as [Hne Hk].
  rewrite IH by done. by rewrite lookup_insert_ne.
Qed.

Lemma foldl_insert_dom {A} (pairs : list (string * A)) (acc : gmap string A) :
  dom (foldl (λ d p, <[p.1 := p.2]> d) acc pairs) = dom acc ∪ list_to_set pairs.*1.
Proof.
  revert acc. induction pairs as [|[k' v'] pairs IH]; intros acc.
  - cbn. set_solver.
  - cbn [foldl fst snd]. rewrite IH, dom_insert_L. cbn. set_solver.
Qed.

Lemma py_dict_last {A} (pre post : list (string * A)) k v :
  k ∉ post.*1 → NlpAnalyzationPipeline.py_dict (pre ++ (k, v) :: post) !! k = Some v.
Proof.
  intros Hk. unfold NlpAnalyzationPipeline.py_dict.
  rewrite foldl_app. cbn [foldl fst snd].
  rewrite foldl_insert_lookup_other by done. apply lookup_insert_eq.
Qed.

(** X13.  When the keyword arguments name neither [source] nor
    [featurizers], [source_to_featurization_job] is the job constructor on
    the given source, the given keyword arguments and a mapping of
    featurizers whose keys are exactly the pipeline's names and in which a
    name given several times stands for the last analyzer given under it. *)
Theorem featurization_job_featurizers (DataSource kwval FeaturizationJob : Type)
    (FeaturizationJob_init :
       DataSource → gmap string NlpAnalyzer.t → gmap string kwval → M FeaturizationJob)
    (p : NlpAnalyzationPipeline.t) (source : DataSource) (kwargs : gmap string kwval)
    (h : heap) :
  kwargs !! "source" = None →
  kwargs !! "featurizers" = None →
  ∃ featurizers : gmap string NlpAnalyzer.t,
    NlpAnalyzationPipeline.source_to_featurization_job
      DataSource kwval FeaturizationJob FeaturizationJob_init p source kwargs h
    = FeaturizationJob_init source featurizers kwargs h
    ∧ dom featurizers = list_to_set (NlpAnalyzationPipeline._analyzers p).*1
    ∧ ∀ pre name a post,
        NlpAnalyzationPipeline._analyzers p = pre ++ (name, a) :: post →
        name ∉ post.*1 →
        featurizers !! name = Some a.
Proof.
  intros Hsource Hfeat.
  exists (NlpAnalyzationPipeline.py_dict (NlpAnalyzationPipeline._analyzers p)).
  split_and!.
  - unfold NlpAnalyzationPipeline.source_to_featurization_job.
    rewrite decide_False; [done|].
    rewrite Hsource, Hfeat. by intros [[? [=]]|[? [=]]].
  - unfold NlpAnalyzationPipeline.py_dict. rewrite foldl_insert_dom, dom_empty_L.
    by rewrite (left_id_L ∅ (∪)).
  - intros pre name a post -> Hname. by apply py_dict_last.
Qed.

Lemma featurization_job_featurizers_witness :
  ∃ featurizers : gmap string NlpAnalyzer.t,
    NlpAnalyzationPipeline.source_to_featurization_job loc value sample_job sample_job_init
      (NlpAnalyzationPipeline.mk [("x", x_analyzer); ("x", twice_analyzer)])
      0 {["name" := VStr "job"]} [two_words]
    = sample_job_init 0 featurizers {["name" := VStr "job"]} [two_words]
    ∧ dom featurizers = list_to_set ["x"; "x"]
    ∧ featurizers !! "x" = Some twice_analyzer.
Proof.
  destruct (featurization_job_featurizers loc value sample_job sample_job_init
              (NlpAnalyzationPipeline.mk [("x", x_analyzer); ("x", twice_analyzer)])
              0 {["name" := VStr "job"]} [two_words])
    as (featurizers & Hjob & Hdom & Hlast); [reflexivity | reflexivity |].
  exists featurizers. split_and!; [exact Hjob | exact Hdom |].
  apply (Hlast [("x", x_analyzer)] "x" twice_analyzer []); [reflexivity|].
  apply not_elem_of_nil.
Defined.

(** X14.  Keyword arguments that name [source] or [featurizers] clash with
    the ones the pipeline passes itself: [source_to_featurization_job] raises
    [TypeError] without constructing a job, and [df_to_featurization_job]
    does so once it has made the mock source. *)
Theorem featurization_job_keyword_clash (DataSource kwval FeaturizationJob : Type)
    (MockDfDataSource : loc → M DataSource)
    (FeaturizationJob_init :
       DataSource → gmap string NlpAnalyzer.t → gmap string kwval → M FeaturizationJob)
    (p : NlpAnalyzationPipeline.t) (kwargs : gmap string kwval) :
  is_Some (kwargs !! "source") ∨ is_Some (kwargs !! "featurizers") →
  (∀ source h,
     NlpAnalyzationPipeline.source_to_featurization_job
       DataSource kwval FeaturizationJob FeaturizationJob_init p source kwargs h
     = (h, Raise TypeError))
  ∧ (∀ df h,
       NlpAnalyzationPipeline.df_to_featurization_job
         DataSource kwval FeaturizationJob MockDfDataSource FeaturizationJob_init p df kwargs h
       = match MockDfDataSource df h with
         | (h1, Ok _) => (h1, Raise TypeError)
         | (h1, Raise e) => (h1, Raise e)
         end).
Proof.
  intros Hclash.
  assert (Hsrc : ∀ source h,
    NlpAnalyzationPipeline.source_to_featurization_job
      DataSource kwval FeaturizationJob FeaturizationJob_init p source kwargs h
    = (h, Raise TypeError)).
  { intros source h. unfold NlpAnalyzationPipeline.source_to_featurization_job.
    by rewrite decide_True. }
  split; [done|].
  intros df h. unfold NlpAnalyzationPipeline.df_to_featurization_job, bind.
  destruct (MockDfDataSource df h) as [h1 [source|e]]; [apply Hsrc | done].
Qed.

Lemma featurization_job_keyword_clash_witness :
  NlpAnalyzationPipeline.source_to_featurization_job loc value sample_job sample_job_init
    (NlpAnalyzationPipeline.mk [("x", x_analyzer)]) 0 {["source" := VInt 1]} [two_words]
  = ([two_words], Raise TypeError)
  ∧ NlpAnalyzationPipeline.df_to_featurization_job loc value sample_job
      sample_mock sample_job_init
      (NlpAnalyzationPipeline.mk [("x", x_analyzer)]) 0 {["source" := VInt 1]} [two_words]
    = ([two_words], Raise TypeError).
Proof.
  destruct (featurization_job_keyword_clash loc value sample_job sample_mock sample_job_init
              (NlpAnalyzationPipeline.mk [("x", x_analyzer)]) {["source" := VInt 1]})
    as [Hsrc Hdf].
  - left. by eexists.
  - split; [apply Hsrc | apply Hdf].
Defined.

(** What [apply] of a stateless analyzer does to a store holding the table:
    it appends tables and ends the same way, whatever else the store
    holds. *)
Lemma apply_stateless_outcome WC a f l df :
  stateless a f →
  ∃ (ext : list DataFrame) (o : option exn),
    ∀ h, h !! l = Some df →
      NlpAnalyzer.apply WC a l h
      = (h ++ ext, match o with Some e => Raise e | None => Ok (S (length h)) end).
Proof.
  intros Hpure.
  assert (Hinner : ∀ h, h !! l = Some df →
    NlpAnalyzer._analyze_inner a l h =
      match f df with
      | inl e => (h, Raise e)
      | inr None => (h, Ok PyNone)
      | inr (Some out) => (h ++ [out], Ok (PyDataFrame (length h)))
      end).
  { intros h Hl. rewrite Hpure. unfold pure_inner. py_run with Hl.
    by destruct (f df) as [e|[out|]]. }
  destruct (decide (Forall (λ c, c ∈ column_names df) (WC ++ NlpAnalyzer._required_columns a)))
    as [Hvalid|Hinvalid].
  - destruct (f df) as [e|[out|]] eqn:Hf.
    + exists [], (Some e). intros h Hl.
      rewrite apply_steps, (analyze_steps WC a l h df Hl), ensure_df_contains_ok by done.
      rewrite (Hinner h Hl). by rewrite app_nil_r.
    + destruct (join df out (NlpAnalyzer._join_by a)) as [e|res] eqn:Hjoin.
      * exists [out], (Some e). intros h Hl.
        rewrite apply_steps, (analyze_steps WC a l h df Hl), ensure_df_contains_ok by done.
        rewrite (Hinner h Hl).
        rewrite (list_lookup_total_correct (h ++ [out]) l df),
                (list_lookup_total_correct (h ++ [out]) (length h) out).
        -- by rewrite Hjoin.
        -- rewrite lookup_app_r by lia. by rewrite Nat.sub_diag.
        -- rewrite lookup_app_l; [done | by eapply lookup_lt_Some].
      * exists [out; res], None. intros h Hl.
        rewrite apply_steps, (analyze_steps WC a l h df Hl), ensure_df_contains_ok by done.
        rewrite (Hinner h Hl).
        rewrite (list_lookup_total_correct (h ++ [out]) l df),
                (list_lookup_total_correct (h ++ [out]) (length h) out).
        -- rewrite Hjoin, <- app_assoc, length_app. cbn [length app].
           do 2 f_equal. lia.
        -- rewrite lookup_app_r by lia. by rewrite Nat.sub_diag.
        -- rewrite lookup_app_l; [done | by eapply lookup_lt_Some].
    + exists [], (Some ValueError). intros h Hl.
      rewrite apply_steps, (analyze_steps WC a l h df Hl), ensure_df_contains_ok by done.
      rewrite (Hinner h Hl). by rewrite app_nil_r.
  - exists [], (Some ValidationError). intros h Hl.
    rewrite apply_steps, (analyze_steps WC a l h df Hl).
    unfold validations.ensure_df_contains. rewrite decide_False by done.
    py_unfold. by rewrite app_nil_r.
Qed.

(** An analyzer that returns on one store holding the table returns on all
    of them, with the same two tables. *)
Lemma apply_stateless_returns WC a f l df h :
  stateless a f →
  h !! l = Some df →
  is_Some (returned_table (NlpAnalyzer.apply WC a l h)) →
  ∃ out res, ∀ h0, h0 !! l = Some df →
    NlpAnalyzer.apply WC a l h0 = (h0 ++ [out; res], Ok (S (length h0))).
Proof.
  intros Hpure Hl [res Hres].
  destruct (apply_stateless WC a f l df Hpure) as [Hok|Hfail]; [done|].
  destruct (Hfail h Hl) as (h1 & e & Hraise). by rewrite Hraise in Hres.
Qed.

Lemma analyze_loop_app WC pre post l acc h :
  NlpAnalyzationPipeline.analyze_loop WC (pre ++ post) l acc h
  = match NlpAnalyzationPipeline.analyze_loop WC pre l acc h with
    | (h1, Ok acc1) => NlpAnalyzationPipeline.analyze_loop WC post l acc1 h1
    | (h1, Raise e) => (h1, Raise e)
    end.
Proof.
  revert acc h. induction pre as [|[name a] pre IH]; intros acc h; [done|].
  cbn [app NlpAnalyzationPipeline.analyze_loop]. unfold bind.
  destruct (NlpAnalyzer.apply WC a l h) as [h1 [r|e]]; [apply IH | done].
Qed.

(** The loop of [analyze_dataframe] over analyzers that each return: every
    analyzer allocates its two tables, and a name refers to the table of the
    last analyzer given under it. *)
Lemma analyze_loop_last WC l df (analyzers : list (string * NlpAnalyzer.t)) :
  (∀ name a, (name, a) ∈ analyzers →
     ∃ out res, ∀ h, h !! l = Some df →
       NlpAnalyzer.apply WC a l h = (h ++ [out; res], Ok (S (length h)))) →
  ∀ (h : heap) (acc : gmap string loc),
    h !! l = Some df →
    ∃ h' results,
      NlpAnalyzationPipeline.analyze_loop WC analyzers l acc h = (h', Ok results)
      ∧ h' !! l = Some df
      ∧ h `prefix_of` h'
      ∧ length h' = length h + 2 * length analyzers
      ∧ dom results = dom acc ∪ list_to_set analyzers.*1
      ∧ (∀ k, k ∉ analyzers.*1 → results !! k = acc !! k)
      ∧ (∀ pre name a post, analyzers = pre ++ (name, a) :: post → name ∉ post.*1 →
           ∃ lr res, results !! name = Some lr ∧ h' !! lr = Some res
             ∧ ∀ h0, h0 !! l = Some df →
                 returned_table (NlpAnalyzer.apply WC a l h0) = Some res).
Proof.
  induction analyzers as [|[name a] rest IH]; intros Hret h acc Hl.
  - exists h, acc. cbn. split_and!; try done.
    + set_solver.
    + intros pre name a post Heq. by destruct pre.
  - destruct (Hret name a) as (out & res & Happly); [left|].
    assert (Hl' : (h ++ [out; res]) !! l = Some df).
    { rewrite lookup_app_l; [done | by eapply lookup_lt_Some]. }
    assert (Hret' : ∀ name' a', (name', a') ∈ rest →
              ∃ out res, ∀ h, h !! l = Some df →
                NlpAnalyzer.apply WC a' l h = (h ++ [out; res], Ok (S (length h)))).
    { intros name' a' Hin. apply (Hret name'). by right. }
    destruct (IH Hret' (h ++ [out; res]) (<[name := S (length h)]> acc) Hl')
      as (h' & results & Hrun & Hl'' & Hpre & Hlen & Hdom & Hother & Hlast).
    exists h', results. split_and!.
    + cbn [NlpAnalyzationPipeline.analyze_loop]. unfold bind at 1.
      by rewrite (Happly h Hl).
    + done.
    + etrans; [|exact Hpre]. by apply prefix_app_r.
    + rewrite Hlen, length_app. cbn [length]. lia.
    + rewrite Hdom, dom_insert_L. cbn [fmap list_fmap fst list_to_set]. set_solver.
    + intros k Hk. cbn [fmap list_fmap fst] in Hk. apply not_elem_of_cons in Hk as [Hne Hk].
      rewrite (Hother k Hk). by rewrite lookup_insert_ne.
    + intros pre name' a' post Heq Hname. destruct pre as [|p pre].
      * cbn [app] in Heq. injection Heq as Hn Ha Hrest. subst name' a' post.
        exists (S (length h)), res. split_and!.
        -- rewrite (Hother name Hname). apply lookup_insert_eq.
        -- apply (prefix_lookup_Some (h ++ [out; res])); [|done].
           rewrite lookup_app_r by lia.
           by replace (S (length h) - length h) with 1 by lia.
        -- intros h0 Hh0. rewrite (Happly h0 Hh0). cbn [returned_table].
           rewrite lookup_app_r by lia.
           by replace (S (length h0) - length h0) with 1 by lia.
      * cbn [app] in Heq. injection Heq as _ Hrest.
        by apply (Hlast pre name' a' post).
Qed.

(** X15.  Names need not be distinct for [analyze_dataframe] to return.
    For stateless analyzers that each return from [apply] on the table, it
    runs all of them (each allocates its derived table and its joined
    table), returns one entry per distinct name, and a name given several
    times refers to the table of the last analyzer given under it. *)
Theorem analyze_dataframe_last_name_wins (WC : list string) (p : NlpAnalyzationPipeline.t)
    (l : loc) (h : heap) (df : DataFrame) :
  h !! l = Some df →
  (∀ name a, (name, a) ∈ NlpAnalyzationPipeline._analyzers p →
     (∃ f, stateless a f) ∧ is_Some (returned_table (NlpAnalyzer.apply WC a l h))) →
  ∃ (h' : heap) (results : gmap string loc),
    NlpAnalyzationPipeline.analyze_dataframe WC p l h = (h', Ok results)
    ∧ length h' = length h + 2 * length (NlpAnalyzationPipeline._analyzers p)
    ∧ dom results = list_to_set (NlpAnalyzationPipeline._analyzers p).*1
    ∧ ∀ pre name a post,
        NlpAnalyzationPipeline._analyzers p = pre ++ (name, a) :: post →
        name ∉ post.*1 →
        ∃ lr res, results !! name = Some lr
          ∧ h' !! lr = Some res
          ∧ returned_table (NlpAnalyzer.apply WC a l h) = Some res.
Proof.
  intros Hl Hall.
  destruct (analyze_loop_last WC l df (NlpAnalyzationPipeline._analyzers p))
    with (h := h) (acc := (∅ : gmap string loc))
    as (h' & results & Hrun & _ & _ & Hlen & Hdom & _ & Hlast).
  - intros name a Hin. destruct (Hall name a Hin) as [[f Hf] Hsome].
    by apply (apply_stateless_returns WC a f l df h).
  - done.
  - exists h', results. split_and!.
    + done.
    + done.
    + rewrite Hdom, dom_empty_L. by rewrite (left_id_L ∅ (∪)).
    + intros pre name a post Heq Hname.
      destruct (Hlast pre name a post Heq Hname) as (lr & res & ? & ? & Hsame).
      exists lr, res. split_and!; try done. by apply Hsame.
Qed.

Lemma analyze_dataframe_last_name_wins_witness :
  let p := NlpAnalyzationPipeline.mk [("a", x_analyzer); ("a", twice_analyzer)] in
  ∃ (h' : heap) (results : gmap string loc),
    NlpAnalyzationPipeline.analyze_dataframe coordinates p 0 [two_words] = (h', Ok results)
    ∧ length h' = 5
    ∧ dom results = list_to_set ["a"; "a"]
    ∧ ∃ lr res, results !! "a" = Some lr
        ∧ h' !! lr = Some res
        ∧ returned_table (NlpAnalyzer.apply coordinates twice_analyzer 0 [two_words]) = Some res.
Proof.
  intros p.
  destruct (analyze_dataframe_last_name_wins coordinates p 0 [two_words] two_words)
    as (h' & results & Hrun & Hlen & Hdom & Hlast).
  - reflexivity.
  - intros name a Hin.
    apply elem_of_cons in Hin as [[= -> ->]|Hin];
      [|apply elem_of_cons in Hin as [[= -> ->]|Hin]; [|by apply elem_of_nil in Hin]].
    + split; [eexists; intros l h; reflexivity | compute_done].
    + split; [eexists; intros l h; reflexivity | compute_done].
  - exists h', results. split_and!; [exact Hrun | exact Hlen | exact Hdom |].
    apply (Hlast [("a", x_analyzer)] "a" twice_analyzer []); [reflexivity|].
    apply not_elem_of_nil.
Defined.

(** X16.  [analyze_dataframe] stops at the first analyzer whose [apply]
    raises: after analyzers that return, a stateless analyzer that raises on
    the table makes the whole call raise the same exception; no mapping is
    returned and the analyzers after it, whatever they are, are not run. *)
Theorem analyze_dataframe_stops_at_first_failure (WC : list string)
    (pre post : list (string * NlpAnalyzer.t)) (name : string) (a : NlpAnalyzer.t)
    (l : loc) (h h1 : heap) (df : DataFrame) (e : exn) :
  h !! l = Some df →
  (∀ name' a', (name', a') ∈ pre →
     (∃ f, stateless a' f) ∧ is_Some (returned_table (NlpAnalyzer.apply WC a' l h))) →
  (∃ f, stateless a f) →
  NlpAnalyzer.apply WC a l h = (h1, Raise e) →
  ∃ h', NlpAnalyzationPipeline.analyze_dataframe WC
          (NlpAnalyzationPipeline.mk (pre ++ (name, a) :: post)) l h
        = (h', Raise e)
      ∧ h `prefix_of` h'.
Proof.
  intros Hl Hpre [f Hf] Hraise.
  unfold NlpAnalyzationPipeline.analyze_dataframe.
  cbn [NlpAnalyzationPipeline._analyzers]. rewrite analyze_loop_app.
  destruct (analyze_loop_last WC l df pre) with (h := h) (acc := (∅ : gmap string loc))
    as (hp & accp & Hrun & Hlp & Hprefix & _).
  - intros name' a' Hin. destruct (Hpre name' a' Hin) as [[f' Hf'] Hsome].
    by apply (apply_stateless_returns WC a' f' l df h).
  - done.
  - rewrite Hrun. cbn [NlpAnalyzationPipeline.analyze_loop]. unfold bind at 1.
    destruct (apply_stateless_outcome WC a f l df Hf) as (ext & o & Hout).
    pose proof (Hout h Hl) as Hh. rewrite Hraise in Hh.
    destruct o as [e'|]; [|done]. injection Hh as -> ->.
    rewrite (Hout hp Hlp). exists (hp ++ ext). split; [done|].
    by apply prefix_app_r.
Qed.

Lemma analyze_dataframe_stops_at_first_failure_witness :
  ∃ h', NlpAnalyzationPipeline.analyze_dataframe coordinates
          (NlpAnalyzationPipeline.mk
             ([("x", x_analyzer)] ++ ("s", sentence_analyzer) :: [("y", twice_analyzer)]))
          0 [two_words]
        = (h', Raise ValueError)
      ∧ [two_words] `prefix_of` h'.
Proof.
  apply (analyze_dataframe_stops_at_first_failure coordinates
           [("x", x_analyzer)] [("y", twice_analyzer)] "s" sentence_analyzer
           0 [two_words] [two_words; sentence_table] two_words ValueError).
  - reflexivity.
  - intros name a Hin.
    apply elem_of_cons in Hin as [[= -> ->]|Hin]; [|by apply elem_of_nil in Hin].
    split; [eexists; intros l h; reflexivity | compute_done].
  - eexists. intros l h. reflexivity.
  - reflexivity.
Defined.

Lemma analyze_loop_prefix WC l df (analyzers : list (string * NlpAnalyzer.t)) :
  (∀ name a, (name, a) ∈ analyzers → ∃ f, stateless a f) →
  ∀ (h : heap) (acc : gmap string loc),
    h !! l = Some df →
    h `prefix_of` (NlpAnalyzationPipeline.analyze_loop WC analyzers l acc h).1.
Proof.
  induction analyzers as [|[name a] rest IH]; intros Hpure h acc Hl; [done|].
  cbn [NlpAnalyzationPipeline.analyze_loop]. unfold bind at 1.
  destruct (Hpure name a) as [f Hf]; [left|].
  destruct (apply_stateless_outcome WC a f l df Hf) as (ext & o & Hout).
  rewrite (Hout h Hl). destruct o as [e|].
  - by apply prefix_app_r.
  - etrans; [by apply (prefix_app_r h h ext)|]. apply IH.
    + intros name' a' Hin. apply (Hpure name'). by right.
    + rewrite lookup_app_l; [done | by eapply lookup_lt_Some].
Qed.

(** X17.  With stateless analyzers [analyze_dataframe] only adds tables to
    the store: however it ends, every table that was there before the call,
    the input among them, is there unchanged after it. *)
Theorem analyze_dataframe_only_allocates (WC : list string) (p : NlpAnalyzationPipeline.t)
    (l : loc) (h : heap) (df : DataFrame) :
  h !! l = Some df →
  (∀ name a, (name, a) ∈ NlpAnalyzationPipeline._analyzers p → ∃ f, stateless a f) →
  h `prefix_of` (NlpAnalyzationPipeline.analyze_dataframe WC p l h).1
  ∧ ∀ i d, h !! i = Some d →
      (NlpAnalyzationPipeline.analyze_dataframe WC p l h).1 !! i = Some d.
Proof.
  intros Hl Hpure.
  assert (Hprefix : h `prefix_of` (NlpAnalyzationPipeline.analyze_dataframe WC p l h).1).
  { unfold NlpAnalyzationPipeline.analyze_dataframe. by apply (analyze_loop_prefix WC l df). }
  split; [done|].
  intros i d Hi. by apply (prefix_lookup_Some h).
Qed.

Lemma analyze_dataframe_only_allocates_witness :
  let p := NlpAnalyzationPipeline.mk [("x", x_analyzer); ("s", sentence_analyzer)] in
  [two_words] `prefix_of` (NlpAnalyzationPipeline.analyze_dataframe coordinates p 0 [two_words]).1
  ∧ ∀ i d, [two_words] !! i = Some d →
      (NlpAnalyzationPipeline.analyze_dataframe coordinates p 0 [two_words]).1 !! i = Some d.
Proof.
  intros p.
  apply (analyze_dataframe_only_allocates coordinates p 0 [two_words] two_words).
  - reflexivity.
  - intros name a Hin.
    apply elem_of_cons in Hin as [[= -> ->]|Hin];
      [|apply elem_of_cons in Hin as [[= -> ->]|Hin]; [|by apply elem_of_nil in Hin]].
    + eexists. intros l h. reflexivity.
    + eexists. intros l h. reflexivity.
Defined.

(** ** The patterns of regular_expressions.py *)

Import regular_expressions.

Lemma matches_lit w s k :
  matches (lit w) s k = true ↔ ∃ s', s = w ++ s' ∧ k s' = true.
Proof.
  revert s. induction w as [|c w IH]; intros s; cbn [lit foldr matches].
  - split; [intros Hk; by exists s | by intros (s' & -> & Hk)].
  - destruct s as [|x s]; [split; [done | by intros (s' & ? & _)]|].
    fold (lit w). rewrite andb_true_iff, N.eqb_eq, IH. split.
    + intros (-> & s' & -> & Hk). by exists s'.
    + intros (s' & [= -> ->] & Hk). split; [done | by exists s'].
Qed.

Lemma matches_alts ws s k :
  ws ≠ [] →
  matches (alts ws) s k = true ↔ ∃ w s', w ∈ ws ∧ s = w ++ s' ∧ k s' = true.
Proof.
  induction ws as [|w ws IH]; [done|]. intros _.
  destruct ws as [|w' ws].
  - cbn [alts]. rewrite matches_lit. split.
    + intros (s' & -> & Hk). exists w, s'. split_and!; [left | done..].
    + intros (w0 & s' & ->%list_elem_of_singleton & -> & Hk). by exists s'.
  - change (alts (w :: w' :: ws)) with (Alt (lit w) (alts (w' :: ws))).
    cbn [matches]. rewrite orb_true_iff, matches_lit, IH by done. split.
    + intros [(s' & -> & Hk) | (w0 & s' & Hin & -> & Hk)].
      * exists w, s'. split_and!; [left | done..].
      * exists w0, s'. split_and!; [by right | done..].
    + intros (w0 & s' & [->|Hin]%elem_of_cons & -> & Hk).
      * left. by exists s'.
      * right. by exists w0, s'.
Qed.

Lemma at_end_spec s : at_end s = true ↔ s = [] ∨ s = [10%N].
Proof.
  destruct s as [|c [|c' s]]; cbn [at_end].
  - naive_solver.
  - rewrite N.eqb_eq. naive_solver.
  - naive_solver.
Qed.

Lemma re_search_spec r s :
  re_search r s = true ↔ ∃ pre suf, s = pre ++ suf ∧ re_match r suf = true.
Proof.
  induction s as [|x s IH]; cbn [re_search]; rewrite orb_true_iff.
  - split.
    + intros [Hm|[=]]. by exists [], [].
    + intros (pre & suf & Heq & Hm). symmetry in Heq.
      apply app_eq_nil in Heq as [-> ->]. by left.
  - rewrite IH. split.
    + intros [Hm | (pre & suf & -> & Hm)].
      * by exists [], (x :: s).
      * by exists (x :: pre), suf.
    + intros (pre & suf & Heq & Hm). destruct pre as [|y pre].
      * left. by rewrite Heq.
      * injection Heq as -> ->. right. by exists pre, suf.
Qed.

(** A tail [c н ending] of a word, up to a newline that ends it. *)
Lemma tail_match (first : regex) (P : N → Prop) s :
  (∀ t k, matches first t k = true ↔ ∃ x t', t = x :: t' ∧ P x ∧ k t' = true) →
  re_match (Cat first (Cat (Chr letter_n) (Cat (alts endings) Eol))) s = true
  ↔ ∃ x e nl, s = x :: letter_n :: e ++ nl ∧ P x ∧ e ∈ endings ∧ (nl = [] ∨ nl = [10%N]).
Proof.
  intros Hfirst. unfold re_match. cbn [matches]. rewrite Hfirst. split.
  - intros (x & t & -> & Hx & Ht). destruct t as [|y t]; [done|].
    apply andb_true_iff in Ht as [->%N.eqb_eq Ht].
    apply matches_alts in Ht as (e & nl & He & -> & Hnl); [|done].
    apply andb_true_iff in Hnl as [Hnl%at_end_spec _]. by exists x, e, nl.
  - intros (x & e & nl & -> & Hx & He & Hnl). exists x, (letter_n :: e ++ nl).
    split_and!; [done..|]. rewrite N.eqb_refl, andb_true_l.
    apply matches_alts; [done|]. exists e, nl. split_and!; [done..|].
    rewrite andb_true_r. by apply at_end_spec.
Qed.

Lemma matches_NotChr c t k :
  matches (NotChr c) t k = true ↔ ∃ x t', t = x :: t' ∧ x ≠ c ∧ k t' = true.
Proof.
  cbn [matches]. destruct t as [|x t]; [split; [done | by intros (? & ? & ? & _)]|].
  rewrite andb_true_iff, negb_true_iff, N.eqb_neq. split.
  - intros [Hx Hk]. by exists x, t.
  - by intros (x' & t' & [= -> ->] & Hx & Hk).
Qed.

Lemma matches_Chr c t k :
  matches (Chr c) t k = true ↔ ∃ x t', t = x :: t' ∧ x = c ∧ k t' = true.
Proof.
  cbn [matches]. destruct t as [|x t]; [split; [done | by intros (? & ? & ? & _)]|].
  rewrite andb_true_iff, N.eqb_eq. split.
  - intros [Hx Hk]. by exists x, t.
  - by intros (x' & t' & [= -> ->] & Hx & Hk).
Qed.

Lemma search_tail (first : regex) (P : N → Prop) s :
  (∀ t k, matches first t k = true ↔ ∃ x t', t = x :: t' ∧ P x ∧ k t' = true) →
  re_search (Cat first (Cat (Chr letter_n) (Cat (alts endings) Eol))) s = true
  ↔ ∃ pre x e nl,
      s = pre ++ [x; letter_n] ++ e ++ nl ∧ P x ∧ e ∈ endings ∧ (nl = [] ∨ nl = [10%N]).
Proof.
  intros Hfirst. rewrite re_search_spec. split.
  - intros (pre & suf & -> & Hm).
    apply (tail_match first P suf Hfirst) in Hm as (x & e & nl & -> & ?).
    by exists pre, x, e, nl.
  - intros (pre & x & e & nl & -> & ?). exists pre, ([x; letter_n] ++ e ++ nl).
    split; [done|]. apply (tail_match first P _ Hfirst). by exists x, e, nl.
Qed.

(** X18.  [single_n_regex] finds a match in exactly the words that end, up
    to one final newline, in a character other than [н], then [н], then one
    of the endings. *)
Theorem single_n_search_spec (s : list N) :
  re_search single_n_regex s = true
  ↔ ∃ pre x e nl,
      s = pre ++ [x; letter_n] ++ e ++ nl
      ∧ x ≠ letter_n ∧ e ∈ endings ∧ (nl = [] ∨ nl = [10%N]).
Proof. apply search_tail. intros t k. apply matches_NotChr. Qed.

(** X19.  [double_n_regex] finds a match in exactly the words that end, up
    to one final newline, in [нн] and one of the endings. *)
Theorem double_n_search_spec (s : list N) :
  re_search double_n_regex s = true
  ↔ ∃ pre e nl,
      s = pre ++ [letter_n; letter_n] ++ e ++ nl
      ∧ e ∈ endings ∧ (nl = [] ∨ nl = [10%N]).
Proof.
  unfold double_n_regex.
  rewrite (search_tail (Chr letter_n) (λ x, x = letter_n) s);
    [|intros t k; apply matches_Chr].
  split.
  - intros (pre & x & e & nl & -> & -> & ?). by exists pre, e, nl.
  - intros (pre & e & nl & -> & ?). by exists pre, letter_n, e, nl.
Qed.

Lemma endings_letters :
  Forall (λ e, (letter_n ∉ e) ∧ (10%N ∉ e) ∧ e ≠ []) endings.
Proof. compute_done. Qed.

(** The part of a word after its last [c] is determined by the word. *)
Lemma split_at_last {A} (c : A) (a b t t' : list A) :
  c ∉ t → c ∉ t' → a ++ c :: t = b ++ c :: t' → a = b ∧ t = t'.
Proof.
  intros Ht Ht'. revert b. induction a as [|x a IH]; intros [|y b] Heq.
  - by injection Heq as ->.
  - injection Heq as -> ->. exfalso. apply Ht. set_solver.
  - injection Heq as -> <-. exfalso. apply Ht'. set_solver.
  - injection Heq as -> Heq. destruct (IH b Heq) as [-> ->]. done.
Qed.

Lemma ending_tail e nl :
  e ∈ endings → nl = [] ∨ nl = [10%N] → letter_n ∉ e ++ nl.
Proof.
  intros He Hnl. pose proof endings_letters as Hall.
  rewrite Forall_forall in Hall. destruct (Hall e He) as (Hn & _ & _).
  rewrite elem_of_app. intros [?|Hin]; [done|].
  destruct Hnl as [-> | ->]; [by apply elem_of_nil in Hin|].
  by apply list_elem_of_singleton in Hin.
Qed.

(** X20.  No word is found by both patterns: on every word at least one of
    the two searches fails. *)
Theorem single_and_double_n_exclude (s : list N) :
  re_search single_n_regex s && re_search double_n_regex s = false.
Proof.
  apply not_true_is_false. intros [Hsingle Hdouble]%andb_true_iff.
  apply (search_tail (NotChr letter_n) (λ x, x ≠ letter_n)) in Hsingle
    as (pre & x & e & nl & -> & Hx & He & Hnl); [|intros t k; apply matches_NotChr].
  apply (search_tail (Chr letter_n) (λ x, x = letter_n)) in Hdouble
    as (pre' & x' & e' & nl' & Heq & -> & He' & Hnl'); [|intros t k; apply matches_Chr].
  change (pre ++ [x; letter_n] ++ e ++ nl) with (pre ++ x :: letter_n :: (e ++ nl)) in Heq.
  change (pre' ++ [letter_n; letter_n] ++ e' ++ nl')
    with (pre' ++ letter_n :: letter_n :: (e' ++ nl')) in Heq.
  rewrite (cons_middle x pre), (cons_middle letter_n pre'), !app_assoc in Heq.
  apply split_at_last in Heq as [Heq _]; [|by apply ending_tail..].
  apply app_inj_tail in Heq as [_ ->]. done.
Qed.

Lemma endings_lengths : Forall (λ e, (length e ≤ 3)%nat) endings.
Proof. compute_done. Qed.

(** A tail of a word that is no longer than the word's second part lies in
    that part. *)
Lemma tail_within {A} (pre s p t : list A) :
  pre ++ s = p ++ t → (length t ≤ length s)%nat → ∃ p', s = p' ++ t.
Proof.
  intros Heq Hlen. apply app_eq_inv in Heq as [(k & -> & ->) | (k & -> & ->)].
  - rewrite length_app in Hlen. destruct k; [|cbn in Hlen; lia]. by exists [].
  - by exists k.
Qed.

Lemma search_tail_last_six (first : regex) (P : N → Prop) pre s :
  (∀ t k, matches first t k = true ↔ ∃ x t', t = x :: t' ∧ P x ∧ k t' = true) →
  (6 ≤ length s)%nat →
  re_search (Cat first (Cat (Chr letter_n) (Cat (alts endings) Eol))) (pre ++ s)
  = re_search (Cat first (Cat (Chr letter_n) (Cat (alts endings) Eol))) s.
Proof.
  intros Hfirst Hlen. apply eq_true_iff_eq.
  rewrite !(search_tail first P _ Hfirst). split.
  - intros (p & x & e & nl & Heq & Hx & He & Hnl).
    destruct (tail_within pre s p ([x; letter_n] ++ e ++ nl) Heq) as [p' ->].
    + pose proof endings_lengths as Hall. rewrite Forall_forall in Hall.
      specialize (Hall e He). rewrite !length_app. cbn [length].
      destruct Hnl as [-> | ->]; cbn [length]; lia.
    + by exists p', x, e, nl.
  - intros (p & x & e & nl & -> & Hx & He & Hnl).
    exists (pre ++ p), x, e, nl. by rewrite <- app_assoc.
Qed.

(** X21.  Each pattern reads the last six characters of a string at most
    (a character, [н], an ending of up to three characters, a final newline):
    for a string of six characters or more, putting text in front of it
    changes the answer of neither pattern. *)
Theorem search_reads_last_six (pre s : list N) :
  (6 ≤ length s)%nat →
  re_search single_n_regex (pre ++ s) = re_search single_n_regex s
  ∧ re_search double_n_regex (pre ++ s) = re_search double_n_regex s.
Proof.
  intros Hlen. split.
  - apply (search_tail_last_six (NotChr letter_n) (λ x, x ≠ letter_n)); [|done].
    intros t k. apply matches_NotChr.
  - apply (search_tail_last_six (Chr letter_n) (λ x, x = letter_n)); [|done].
    intros t k. apply matches_Chr.
Qed.

Lemma search_reads_last_six_witness :
  re_search single_n_regex (utf8 "не" ++ utf8 "длинный")
  = re_search single_n_regex (utf8 "длинный")
  ∧ re_search double_n_regex (utf8 "не" ++ utf8 "длинный")
    = re_search double_n_regex (utf8 "длинный").
Proof.
  apply (search_reads_last_six (utf8 "не") (utf8 "длинный")). vm_compute. lia.
Defined.

Lemma search_tail_newline (first : regex) (P : N → Prop) s :
  (∀ t k, matches first t k = true ↔ ∃ x t', t = x :: t' ∧ P x ∧ k t' = true) →
  last s ≠ Some 10%N →
  re_search (Cat first (Cat (Chr letter_n) (Cat (alts endings) Eol))) (s ++ [10%N])
  = re_search (Cat first (Cat (Chr letter_n) (Cat (alts endings) Eol))) s.
Proof.
  intros Hfirst Hlast. apply eq_true_iff_eq.
  rewrite !(search_tail first P _ Hfirst). split.
  - intros (pre & x & e & nl & Heq & Hx & He & [-> | ->]).
    + exfalso. pose proof endings_letters as Hall. rewrite Forall_forall in Hall.
      destruct (Hall e He) as (_ & Hnl & Hne).
      rewrite app_nil_r in Heq.
      destruct (exists_last Hne) as (e0 & c & ->).
      rewrite !app_assoc in Heq. apply app_inj_tail in Heq as [_ <-].
      apply Hnl. set_solver.
    + exists pre, x, e, []. split_and!; [|done..|by left].
      rewrite !app_assoc in Heq. apply app_inj_tail in Heq as [-> _].
      by rewrite app_nil_r, !app_assoc.
  - intros (pre & x & e & nl & -> & Hx & He & [-> | ->]).
    + exists pre, x, e, [10%N]. split_and!; [|done..|by right].
      by rewrite app_nil_r, <- !app_assoc.
    + exfalso. apply Hlast. by rewrite !app_assoc, last_snoc.
Qed.

(** X22.  [$] also matches before a newline that ends the string: for a
    word that does not end in a newline, each pattern gives the same answer
    on the word followed by a newline as on the word. *)
Theorem search_tolerates_final_newline (s : list N) :
  last s ≠ Some 10%N →
  re_search single_n_regex (s ++ [10%N]) = re_search single_n_regex s
  ∧ re_search double_n_regex (s ++ [10%N]) = re_search double_n_regex s.
Proof.
  intros Hlast. split.
  - apply (search_tail_newline (NotChr letter_n) (λ x, x ≠ letter_n)); [|done].
    intros t k. apply matches_NotChr.
  - apply (search_tail_newline (Chr letter_n) (λ x, x = letter_n)); [|done].
    intros t k. apply matches_Chr.
Qed.

Lemma search_tolerates_final_newline_witness :
  re_search single_n_regex (utf8 "юный" ++ [10%N]) = re_search single_n_regex (utf8 "юный")
  ∧ re_search double_n_regex (utf8 "юный" ++ [10%N]) = re_search double_n_regex (utf8 "юный").
Proof.
  apply (search_tolerates_final_newline (utf8 "юный")). vm_compute. discriminate.
Defined.

(** ** Validation of an algorithm's table *)

(** X23.  [NlpAlgorithm.validate_input] asks for [check_requested]: on a
    table that has not been marked it raises the validation error, whatever
    else the table has, and writes nothing.  This is why [run] marks the
    table before it validates. *)
Theorem validate_input_needs_check_requested (WC : list string) (g : NlpAlgorithm.t)
    (l : loc) (h : heap) (df : DataFrame) :
  h !! l = Some df →
  "check_requested" ∉ column_names df →
  NlpAlgorithm.validate_input WC g l h = (h, Raise ValidationError).
Proof.
  intros Hl Hmiss. unfold NlpAlgorithm.validate_input. py_run with Hl.
  apply (ensure_df_contains_missing _ df h "check_requested"); [|done].
  apply elem_of_app. right. left.
Qed.

Lemma validate_input_needs_check_requested_witness :
  ("check_requested" ∉ column_names two_words)
  ∧ NlpAlgorithm.validate_input coordinates ok_algorithm 0 [two_words]
    = ([two_words], Raise ValidationError).
Proof.
  split; [compute_done|].
  apply (validate_input_needs_check_requested coordinates ok_algorithm 0 [two_words] two_words);
    [reflexivity | compute_done].
Defined.

(** ** An inner step that writes *)

(** C8 does not hold of every analyzer: [apply] hands the caller's table to
    the inner step, and when that step writes a column into it, [apply]
    returns and the caller's table has the column. *)
Lemma apply_keeps_the_writes_of_the_inner_step :
  Forall (λ c, c ∈ column_names two_words) coordinates
  ∧ ∃ h' l' df',
      NlpAnalyzer.apply coordinates marking_analyzer 0 [two_words] = (h', Ok l')
      ∧ h' !! 0 = Some df'
      ∧ df' ≠ two_words
      ∧ "seen" ∈ column_names df'
      ∧ ("seen" ∉ column_names two_words).
Proof.
  split; [apply two_words_valid|].
  eexists _, _, _. split_and!.
  - reflexivity.
  - reflexivity.
  - discriminate.
  - compute_done.
  - compute_done.
Qed.

(** ** The cell model on mixed cells *)

(** A boolean paragraph id [True] is a member of the set [{1}]. *)
Example isin_compares_by_value :
  assoc "check_requested"
    (columns ((NlpAlgorithm.put_check_requested 0 (Some {[VInt 1]}) [bool_paragraphs]).1 !!! 0))
  = Some [VBool true; VBool false].
Proof. reflexivity. Qed.

(** Integer keys against an index of strings: the join raises. *)
Example join_refuses_string_keys :
  join two_words string_keyed ["word_id"] = inl ValueError.
Proof. reflexivity. Qed.

(** Integer keys against an index of booleans: [1] matches [True], here
    twice, and [0] matches nothing. *)
Example join_matches_bool_keys :
  match join two_words bool_keyed ["word_id"] with
  | inr res => Some (index res, assoc "X" (columns res))
  | inl _ => None
  end = Some ([[VInt 0]; [VInt 1]; [VInt 1]], Some [VNull; VFloat 1; VFloat 2]).
Proof. reflexivity. Qed.

(** A derived column of integers with a row left unmatched holds floats. *)
Example join_upcasts_integers :
  match join two_words count_table ["word_id"] with
  | inr res => assoc "N" (columns res)
  | inl _ => None
  end = Some [VFloat 7; VNull].
Proof. reflexivity. Qed.

Example round53_rounds_to_even :
  round53 (2 ^ 53 + 1) = (2 ^ 53)%Z ∧ round53 (2 ^ 53 + 3) = (2 ^ 53 + 4)%Z
  ∧ round53 (- (2 ^ 53 + 1)) = (- 2 ^ 53)%Z ∧ round53 12345 = 12345%Z.
Proof. done. Qed.
